(** * Order management API: a shallow embedding of the services, the auth
      gate, the validators and the handlers, with the properties of the
      specification stated over them.

    Layout, following the repository:
    - [Js]               the JavaScript primitives the code calls
                         (numbers, [split], [padStart], [parseInt]);
    - [ApiResponseUtil]  src/utils/response.ts;
    - [Validation]       src/utils/validation.ts (input shapes, pagination);
    - [Prisma]           the relational store behind the Prisma client;
    - [OrderService], [AuthService], [CustomerService]   src/services;
    - [Auth], [ValidationMiddleware], [ErrorHandler]   src/middleware;
    - [OrderController], [AuthController], [CustomerController]
                         src/controllers;
    - [OrderRoutes]      src/routes/orderRoutes.ts.

    JavaScript numbers are IEEE 754 binary64 values and are modelled by the
    kernel's primitive floats, so every sum and product below rounds exactly
    as the running code does. *)

From Stdlib Require Import Floats Ascii String.
From stdpp Require Import base numbers strings pretty list.

Local Open Scope string_scope.

(** ** JavaScript primitives *)

Module Js.

Definition number : Type := float.

(** The Number value of a mathematical integer (round to nearest, ties to
    even); [negZero] selects [-0] for a zero magnitude. *)
Definition ofZ (negZero : bool) (z : Z) : number :=
  SF2Prim (binary_normalize prec emax z 0 negZero).

(** [String(n)] for a non-negative integer below 1e21: its decimal digits. *)
Definition toString (n : N) : string := pretty n.

(** [s.split(c)] for a one-character separator. *)
Fixpoint split (c : ascii) (s : string) : list string :=
  match s with
  | EmptyString => [""]
  | String a rest =>
      if Ascii.eqb a c then "" :: split c rest
      else match split c rest with
           | piece :: pieces => String a piece :: pieces
           | [] => [String a ""]
           end
  end.

Fixpoint repeatString (pad : string) (n : nat) : string :=
  match n with
  | O => ""
  | S n' => pad +:+ repeatString pad n'
  end.

(** [s.padStart(targetLength, padString)]. *)
Definition padStart (targetLength : nat) (padString : string) (s : string)
  : string :=
  let len := String.length s in
  if (targetLength <=? len)%nat || String.eqb padString "" then s
  else
    let fillLen := (targetLength - len)%nat in
    substring 0 fillLen (repeatString padString fillLen) +:+ s.

(** *** [parseInt(s, 10)] *)

(** The characters of a string are code units below 256. The white space
    and line terminators among them: TAB, LF, VT, FF, CR, SP and the
    no-break space U+00A0. White space above U+00FF (U+FEFF, U+2028, ...)
    has no place in such a string. *)
Definition isWhiteSpace (a : ascii) : bool :=
  let n := nat_of_ascii a in
  ((9 <=? n)%nat && (n <=? 13)%nat) || (n =? 32)%nat || (n =? 160)%nat.

Definition isDigit (a : ascii) : bool :=
  let n := nat_of_ascii a in (48 <=? n)%nat && (n <=? 57)%nat.

Definition digitValue (a : ascii) : Z := Z.of_nat (nat_of_ascii a) - 48.

Fixpoint trimStart (s : string) : string :=
  match s with
  | String a rest => if isWhiteSpace a then trimStart rest else s
  | EmptyString => ""
  end.

(** The longest prefix of decimal digits, as the list of its digits. *)
Fixpoint takeDigits (s : string) : list ascii :=
  match s with
  | String a rest => if isDigit a then a :: takeDigits rest else []
  | EmptyString => []
  end.

Definition mathInt (ds : list ascii) : Z :=
  fold_left (fun acc d => acc * 10 + digitValue d)%Z ds 0%Z.

Definition parseInt10 (input : string) : number :=
  let s := trimStart input in
  let '(negative, body) :=
    match s with
    | String "-" rest => (true, rest)
    | String "+" rest => (false, rest)
    | _ => (false, s)
    end in
  match takeDigits body with
  | [] => nan
  | ds => let z := mathInt ds in
          ofZ negative (if negative then (- z)%Z else z)
  end.

End Js.

(** A JavaScript call either returns a value or throws an [Error] with a
    message. *)
Inductive Result (A : Type) : Type :=
| Ok (value : A)
| Throw (message : string).
Arguments Ok {A} value.
Arguments Throw {A} message.

(** ** src/types/index.ts *)

Module Types.

Module Pagination.
Record t := mk
  { page : Js.number; limit : Js.number;
    total : Js.number; totalPages : Js.number }.
End Pagination.

Module ApiResponse.
Record t (T : Type) := mk
  { success : bool;
    message : string;
    data : option T;
    error : option string;
    pagination : option Pagination.t }.
Arguments mk {T}.
Arguments success {T}.
Arguments message {T}.
Arguments data {T}.
Arguments error {T}.
Arguments pagination {T}.
End ApiResponse.

Module JwtPayload.
Record t := mk { userId : string; email : string }.
End JwtPayload.

(** What [res.status(code).json(body)] sends. *)
Module HttpResponse.
Record t (T : Type) := mk { statusCode : N; body : ApiResponse.t T }.
Arguments mk {T}.
Arguments statusCode {T}.
Arguments body {T}.
End HttpResponse.

End Types.

(** ** src/utils/response.ts *)

Module ApiResponseUtil.
Import Types.

(** [success(res, message, data?, statusCode = 200, pagination?)] *)
Definition success {T} (message : string) (data : option T)
    (statusCode : option N) (pagination : option Pagination.t)
  : HttpResponse.t T :=
  HttpResponse.mk (default 200%N statusCode)
    (ApiResponse.mk true message data None pagination).

(** [error(res, message, error?, statusCode = 400)]: the [error] key is
    spread in only when the string is truthy. *)
Definition error {T} (message : string) (error : option string)
    (statusCode : option N) : HttpResponse.t T :=
  HttpResponse.mk (default 400%N statusCode)
    (ApiResponse.mk false message None
       (match error with
        | Some e => if String.eqb e "" then None else Some e
        | None => None
        end)
       None).

Definition notFound {T} (resource : option string) : HttpResponse.t T :=
  error (default "Resource" resource +:+ " not found") None (Some 404%N).

Definition unauthorized {T} (message : option string) : HttpResponse.t T :=
  error (default "Unauthorized" message) None (Some 401%N).

Definition forbidden {T} (message : option string) : HttpResponse.t T :=
  error (default "Forbidden" message) None (Some 403%N).

Definition serverError {T} (err : option string) : HttpResponse.t T :=
  error "Internal server error" err (Some 500%N).

End ApiResponseUtil.

(** ** src/utils/validation.ts: the shapes the schemas produce *)

Module Validation.

Inductive OrderStatus :=
| PENDING | CONFIRMED | PROCESSING | SHIPPED | DELIVERED | CANCELLED.

Module LoginInput.
Record t := mk { email : string; password : string }.
End LoginInput.

Module OrderItemInput.
Record t := mk
  { productName : string; quantity : Js.number; unitPrice : Js.number }.
End OrderItemInput.

Module CreateOrderInput.
Record t := mk
  { customerId : string;
    status : option OrderStatus;
    notes : option string;
    items : list OrderItemInput.t }.
End CreateOrderInput.

Module UpdateOrderInput.
Record t := mk
  { status : option OrderStatus;
    notes : option string;
    items : option (list OrderItemInput.t) }.
End UpdateOrderInput.

(** The raw query, each key a string or absent. *)
Module PaginationQuery.
Record t := mk { page : option string; limit : option string }.
End PaginationQuery.

Module PaginationInput.
Record t := mk { page : Js.number; limit : Js.number }.
End PaginationInput.

(** [(val) => val ? parseInt(val, 10) : fallback]: the empty string is
    falsy, like [undefined]. *)
Definition transformOr (fallback : Js.number) (val : option string)
  : Js.number :=
  match val with
  | Some v => if String.eqb v "" then fallback else Js.parseInt10 v
  | None => fallback
  end.

Definition paginationSchema (q : PaginationQuery.t) : PaginationInput.t :=
  PaginationInput.mk
    (transformOr 1%float (PaginationQuery.page q))
    (transformOr 10%float (PaginationQuery.limit q)).

End Validation.

(** ** The store behind the Prisma client

    Tables are lists of rows in insertion order. The schema file is not part
    of the sources: record identifiers are allocated from a counter, columns
    the schema would fill in by itself (the orders' timestamps) are left out,
    and one client call is one step of the store. *)

Module Prisma.
Import Validation.

Module User.
Record t := mk
  { id : string; email : string; password : string; createdAt : N }.
End User.

Module Customer.
Record t := mk
  { id : string; firstName : string; lastName : string; email : string;
    phone : option string; address : option string }.
End Customer.

Module OrderItem.
Record t := mk
  { id : string; productName : string; quantity : Js.number;
    unitPrice : Js.number; totalPrice : Js.number; orderId : string }.
End OrderItem.

Module Order.
Record t := mk
  { id : string; orderNumber : string; status : OrderStatus;
    totalAmount : Js.number; notes : option string; customerId : string }.
End Order.

Record Store := mkStore
  { users : list User.t;
    customers : list Customer.t;
    orders : list Order.t;
    orderItems : list OrderItem.t;
    nextId : N }.

(** The identifier of the [n]-th record the store creates. *)
Definition cuid (n : N) : string := "c" +:+ pretty n.

(** An order as returned under [include: { customer: true, items: true }]. *)
Module OrderWithRelations.
Record t := mk
  { order : Order.t;
    customer : option Customer.t;
    items : list OrderItem.t }.
End OrderWithRelations.

(** The argument of a nested [create] of items: the input's fields spread,
    then [totalPrice]. *)
Module ItemCreate.
Record t := mk
  { productName : string; quantity : Js.number;
    unitPrice : Js.number; totalPrice : Js.number }.
End ItemCreate.

Module OrderCreateData.
Record t := mk
  { orderNumber : string; status : OrderStatus; totalAmount : Js.number;
    notes : option string; customerId : string;
    items : list ItemCreate.t }.
End OrderCreateData.

(** The [data] of [order.update]; an absent key leaves the column alone,
    and [items = Some l] stands for [{ deleteMany: {}, create: l }]. *)
Module OrderUpdateData.
Record t := mk
  { status : option OrderStatus; notes : option string;
    totalAmount : option Js.number;
    items : option (list ItemCreate.t) }.
End OrderUpdateData.

Definition user_findUnique (email : string) (db : Store) : option User.t :=
  find (fun u => String.eqb (User.email u) email) (users db).

Definition customer_findUnique (id : string) (db : Store)
  : option Customer.t :=
  find (fun c => String.eqb (Customer.id c) id) (customers db).

Definition order_findRow (id : string) (db : Store) : option Order.t :=
  find (fun o => String.eqb (Order.id o) id) (orders db).

Definition order_count (db : Store) : N := N.of_nat (length (orders db)).

Definition itemsOf (orderId : string) (db : Store) : list OrderItem.t :=
  filter (fun it => OrderItem.orderId it = orderId) (orderItems db).

Definition include (o : Order.t) (db : Store) : OrderWithRelations.t :=
  OrderWithRelations.mk o
    (customer_findUnique (Order.customerId o) db)
    (itemsOf (Order.id o) db).

Definition order_findUnique (id : string) (db : Store)
  : option OrderWithRelations.t :=
  (fun o => include o db) <$> order_findRow id db.

(** Rows for a nested [create], identified from [start] upwards. *)
Fixpoint createItems (orderId : string) (start : N)
    (news : list ItemCreate.t) : list OrderItem.t :=
  match news with
  | [] => []
  | n :: rest =>
      OrderItem.mk (cuid start) (ItemCreate.productName n)
        (ItemCreate.quantity n) (ItemCreate.unitPrice n)
        (ItemCreate.totalPrice n) orderId
      :: createItems orderId (N.succ start) rest
  end.

(** [order.create] with nested items. The caller has looked the customer
    up already, so the foreign key is not checked again; no uniqueness rule
    on [orderNumber] is assumed. *)
Definition order_create (data : OrderCreateData.t) (db : Store)
  : Store * OrderWithRelations.t :=
  let id := cuid (nextId db) in
  let row :=
    Order.mk id (OrderCreateData.orderNumber data)
      (OrderCreateData.status data) (OrderCreateData.totalAmount data)
      (OrderCreateData.notes data) (OrderCreateData.customerId data) in
  let news := OrderCreateData.items data in
  let db' :=
    mkStore (users db) (customers db) (orders db ++ [row])
      (orderItems db ++ createItems id (N.succ (nextId db)) news)
      (N.succ (nextId db) + N.of_nat (length news)) in
  (db', include row db').

Definition applyUpdate (data : OrderUpdateData.t) (o : Order.t) : Order.t :=
  Order.mk (Order.id o) (Order.orderNumber o)
    (default (Order.status o) (OrderUpdateData.status data))
    (default (Order.totalAmount o) (OrderUpdateData.totalAmount data))
    (match OrderUpdateData.notes data with
     | Some n => Some n
     | None => Order.notes o
     end)
    (Order.customerId o).

Definition replaceRow (id : string) (row : Order.t) (x : Order.t)
  : Order.t :=
  if String.eqb (Order.id x) id then row else x.

(** [order.update]: [None] is the client's "record not found" exception,
    raised before anything is written. The nested write removes the
    order's items first and then creates the new ones. *)
Definition order_update (id : string) (data : OrderUpdateData.t)
    (db : Store) : option (Store * OrderWithRelations.t) :=
  match order_findRow id db with
  | None => None
  | Some o =>
      let row := applyUpdate data o in
      let orders' := map (replaceRow id row) (orders db) in
      let db' :=
        match OrderUpdateData.items data with
        | None =>
            mkStore (users db) (customers db) orders' (orderItems db)
              (nextId db)
        | Some news =>
            mkStore (users db) (customers db) orders'
              (filter (fun it => OrderItem.orderId it ≠ id) (orderItems db)
                 ++ createItems id (nextId db) news)
              (nextId db + N.of_nat (length news))
        end in
      Some (db', include row db')
  end.

(** Modelled from the spec: the schema's cascade rule is not in the
    sources; deleting an order removes the items it owns. [None] is the
    "record not found" exception. *)
Definition order_delete (id : string) (db : Store) : option Store :=
  match order_findRow id db with
  | None => None
  | Some _ =>
      Some (mkStore (users db) (customers db)
              (filter (fun o => Order.id o ≠ id) (orders db))
              (filter (fun it => OrderItem.orderId it ≠ id) (orderItems db))
              (nextId db))
  end.

End Prisma.

(** ** src/services/orderService.ts *)

Module OrderService.
Import Validation Prisma.

Definition lineTotal (item : OrderItemInput.t) : Js.number :=
  (OrderItemInput.quantity item * OrderItemInput.unitPrice item)%float.

(** [items.reduce((sum, item) => sum + item.quantity * item.unitPrice, 0)] *)
Definition totalOf (items : list OrderItemInput.t) : Js.number :=
  fold_left (fun sum item => (sum + lineTotal item)%float) items 0%float.

(** [items.map(item => ({ ...item, totalPrice: ... }))] *)
Definition withTotalPrice (item : OrderItemInput.t) : ItemCreate.t :=
  ItemCreate.mk (OrderItemInput.productName item)
    (OrderItemInput.quantity item) (OrderItemInput.unitPrice item)
    (lineTotal item).

(** [`ORD-${fullYear}-${String(orderCount + 1).padStart(6, '0')}`] *)
Definition orderNumber (fullYear : N) (orderCount : N) : string :=
  "ORD-" +:+ Js.toString fullYear +:+ "-"
    +:+ Js.padStart 6 "0" (Js.toString (orderCount + 1)).

(** [fullYear] is what [new Date().getFullYear()] returns at the call. *)
Definition createOrder (fullYear : N) (data : CreateOrderInput.t)
    (db : Store) : Store * Result OrderWithRelations.t :=
  let customerId := CreateOrderInput.customerId data in
  let items := CreateOrderInput.items data in
  let status := default PENDING (CreateOrderInput.status data) in
  let notes := CreateOrderInput.notes data in
  match customer_findUnique customerId db with
  | None => (db, Throw "Customer not found")
  | Some _ =>
      let totalAmount := totalOf items in
      let orderCount := order_count db in
      let number := orderNumber fullYear orderCount in
      let '(db', created) :=
        order_create
          (OrderCreateData.mk number status totalAmount notes customerId
             (map withTotalPrice items)) db in
      (db', Ok created)
  end.

Definition getOrderById (id : string) (db : Store)
  : Result OrderWithRelations.t :=
  match order_findUnique id db with
  | None => Throw "Order not found"
  | Some order => Ok order
  end.

(** Any exception of the client is rethrown as "Order not found". An empty
    item list is truthy and takes the replacing branch. *)
Definition updateOrder (id : string) (data : UpdateOrderInput.t)
    (db : Store) : Store * Result OrderWithRelations.t :=
  let status := UpdateOrderInput.status data in
  let notes := UpdateOrderInput.notes data in
  match UpdateOrderInput.items data with
  | Some items =>
      let totalAmount := totalOf items in
      match order_update id
              (OrderUpdateData.mk status notes (Some totalAmount)
                 (Some (map withTotalPrice items))) db with
      | Some (db', updated) => (db', Ok updated)
      | None => (db, Throw "Order not found")
      end
  | None =>
      match order_update id (OrderUpdateData.mk status notes None None) db
      with
      | Some (db', updated) => (db', Ok updated)
      | None => (db, Throw "Order not found")
      end
  end.

Definition deleteOrder (id : string) (db : Store) : Store * Result unit :=
  match order_delete id db with
  | Some db' => (db', Ok tt)
  | None => (db, Throw "Order not found")
  end.

End OrderService.

(** ** src/utils/auth.ts and src/services/authService.ts

    bcrypt and jsonwebtoken are libraries outside the repository: the
    password comparison, the signing and the verification are taken as they
    come. *)

Module AuthService.
Import Types Validation Prisma.

Module LoginUser.
Record t := mk { id : string; email : string; createdAt : N }.
End LoginUser.

Module LoginResult.
Record t := mk { token : string; user : LoginUser.t }.
End LoginResult.

Section Login.
Variable comparePassword : string -> string -> bool.
Variable generateToken : JwtPayload.t -> string.

Definition login (credentials : LoginInput.t) (db : Store)
  : Result LoginResult.t :=
  let email := LoginInput.email credentials in
  let password := LoginInput.password credentials in
  match user_findUnique email db with
  | None => Throw "Invalid credentials"
  | Some user =>
      if negb (comparePassword password (User.password user))
      then Throw "Invalid credentials"
      else
        let token :=
          generateToken (JwtPayload.mk (User.id user) (User.email user)) in
        Ok (LoginResult.mk token
              (LoginUser.mk (User.id user) (User.email user)
                 (User.createdAt user)))
  end.
End Login.

End AuthService.

(** ** src/middleware/auth.ts *)

Module Auth.
Import Types.

Module Request.
Record t := mk
  { authorization : option string; user : option JwtPayload.t }.
End Request.

(** The gate either answers the request itself or calls [next()] on the
    request it has written to. *)
Inductive Outcome :=
| Responded (res : HttpResponse.t unit)
| Next (req : Request.t).

(** [authHeader && authHeader.split(' ')[1]]: [None] is [undefined]. *)
Definition token (req : Request.t) : option string :=
  match Request.authorization req with
  | None => None
  | Some authHeader =>
      if String.eqb authHeader "" then Some ""
      else Js.split " " authHeader !! 1%nat
  end.

Definition falsy (v : option string) : bool :=
  match v with
  | None => true
  | Some s => String.eqb s ""
  end.

Section Gate.
(** [AuthUtil.verifyToken]: [jwt.verify] under the configured secret. *)
Variable verifyToken : string -> Result JwtPayload.t.

Definition authenticateToken (req : Request.t) : Outcome :=
  let tok := token req in
  if falsy tok then
    Responded (ApiResponseUtil.unauthorized (Some "Access token required"))
  else
    match verifyToken (default "" tok) with
    | Ok decoded =>
        Next (Request.mk (Request.authorization req) (Some decoded))
    | Throw _ =>
        Responded
          (ApiResponseUtil.unauthorized (Some "Invalid or expired token"))
    end.
End Gate.

End Auth.

(** ** src/controllers *)

Module OrderController.
Import Types Validation Prisma.

Definition Res := HttpResponse.t OrderWithRelations.t.

Definition createOrder (fullYear : N) (body : CreateOrderInput.t)
    (db : Store) : Store * Res :=
  match OrderService.createOrder fullYear body db with
  | (db', Ok order) =>
      (db', ApiResponseUtil.success "Order created successfully"
              (Some order) (Some 201%N) None)
  | (db', Throw message) =>
      (db', ApiResponseUtil.error "Failed to create order" (Some message)
              None)
  end.

Definition getOrderById (id : string) (db : Store) : Res :=
  match OrderService.getOrderById id db with
  | Ok order =>
      ApiResponseUtil.success "Order retrieved successfully" (Some order)
        None None
  | Throw _ => ApiResponseUtil.notFound (Some "Order")
  end.

Definition updateOrder (id : string) (body : UpdateOrderInput.t)
    (db : Store) : Store * Res :=
  match OrderService.updateOrder id body db with
  | (db', Ok order) =>
      (db', ApiResponseUtil.success "Order updated successfully"
              (Some order) None None)
  | (db', Throw _) => (db', ApiResponseUtil.notFound (Some "Order"))
  end.

Definition deleteOrder (id : string) (db : Store) : Store * Res :=
  match OrderService.deleteOrder id db with
  | (db', Ok _) =>
      (db', ApiResponseUtil.success "Order deleted successfully" None None
              None)
  | (db', Throw _) => (db', ApiResponseUtil.notFound (Some "Order"))
  end.

End OrderController.

Module AuthController.
Import Types Validation Prisma.

Section Login.
Variable comparePassword : string -> string -> bool.
Variable generateToken : JwtPayload.t -> string.

Definition login (body : LoginInput.t) (db : Store)
  : HttpResponse.t AuthService.LoginResult.t :=
  match AuthService.login comparePassword generateToken body db with
  | Ok result =>
      ApiResponseUtil.success "Login successful" (Some result) None None
  | Throw message =>
      ApiResponseUtil.error "Login failed" (Some message) (Some 401%N)
  end.
End Login.

End AuthController.

(** ** src/services/customerService.ts and its handlers *)

Module CustomerInputs.

Module CreateCustomerInput.
Record t := mk
  { firstName : string; lastName : string; email : string;
    phone : option string; address : option string }.
End CreateCustomerInput.

(** [createCustomerSchema.partial()] *)
Module UpdateCustomerInput.
Record t := mk
  { firstName : option string; lastName : option string;
    email : option string; phone : option string; address : option string }.
End UpdateCustomerInput.

End CustomerInputs.

Module PrismaCustomers.
Import Validation Prisma CustomerInputs.

(** The two request errors of the client that the code tells apart by
    their [code]: a unique constraint that would be broken, and a record
    that is not there. *)
Inductive KnownRequestError := P2002 | P2025.

(** A customer's [email] is a unique column: the seed script looks
    customers up with [findUnique({ where: { email } })]. *)
Definition emailTaken (email : string) (db : Store) : bool :=
  existsb (fun c => String.eqb (Customer.email c) email) (customers db).

(** Some customer other than [id] holds [email]. *)
Definition emailOfAnother (id : string) (email : string) (db : Store)
  : bool :=
  existsb
    (fun c => negb (String.eqb (Customer.id c) id)
              && String.eqb (Customer.email c) email)
    (customers db).

(** [customer.create]: refused with [P2002] when the email is taken. *)
Definition customer_create (data : CreateCustomerInput.t) (db : Store)
  : KnownRequestError + Store * Customer.t :=
  if emailTaken (CreateCustomerInput.email data) db then inl P2002
  else
    let row :=
      Customer.mk (cuid (nextId db)) (CreateCustomerInput.firstName data)
        (CreateCustomerInput.lastName data) (CreateCustomerInput.email data)
        (CreateCustomerInput.phone data) (CreateCustomerInput.address data) in
    inr (mkStore (users db) (customers db ++ [row]) (orders db)
           (orderItems db) (N.succ (nextId db)),
         row).

(** A key of the update's data that is absent leaves the column alone. *)
Definition orKeep {A} (given : option A) (old : option A) : option A :=
  match given with
  | Some v => Some v
  | None => old
  end.

Definition applyCustomerUpdate (data : UpdateCustomerInput.t)
    (c : Customer.t) : Customer.t :=
  Customer.mk (Customer.id c)
    (default (Customer.firstName c) (UpdateCustomerInput.firstName data))
    (default (Customer.lastName c) (UpdateCustomerInput.lastName data))
    (default (Customer.email c) (UpdateCustomerInput.email data))
    (orKeep (UpdateCustomerInput.phone data) (Customer.phone c))
    (orKeep (UpdateCustomerInput.address data) (Customer.address c)).

Definition replaceCustomer (id : string) (row : Customer.t) (x : Customer.t)
  : Customer.t :=
  if String.eqb (Customer.id x) id then row else x.

(** [customer.update]: refused with [P2025] when no customer has the id,
    and with [P2002] when the data carry an email that another customer
    holds. *)
Definition customer_update (id : string) (data : UpdateCustomerInput.t)
    (db : Store) : KnownRequestError + Store * Customer.t :=
  match customer_findUnique id db with
  | None => inl P2025
  | Some c =>
      let taken :=
        match UpdateCustomerInput.email data with
        | Some email => emailOfAnother id email db
        | None => false
        end in
      if taken then inl P2002
      else
        let row := applyCustomerUpdate data c in
        inr (mkStore (users db)
               (map (replaceCustomer id row) (customers db))
               (orders db) (orderItems db) (nextId db),
             row)
  end.

(** [_count: { select: { orders: true } }] *)
Definition customer_orderCount (id : string) (db : Store) : N :=
  N.of_nat (length (filter (fun o => Order.customerId o = id) (orders db))).

Definition ownedBy (id : string) (db : Store) (orderId : string) : bool :=
  existsb
    (fun o => String.eqb (Order.id o) orderId
              && String.eqb (Order.customerId o) id)
    (orders db).

(** [customer.delete]: [None] is the "record not found" exception. The
    orders of the customer go with it, as the service's comment says of the
    schema. Modelled from the spec: the items of those orders go too. *)
Definition customer_delete (id : string) (db : Store) : option Store :=
  match customer_findUnique id db with
  | None => None
  | Some _ =>
      Some (mkStore (users db)
              (filter (fun c => Customer.id c ≠ id) (customers db))
              (filter (fun o => Order.customerId o ≠ id) (orders db))
              (filter (fun it => ownedBy id db (OrderItem.orderId it) = false)
                 (orderItems db))
              (nextId db))
  end.

End PrismaCustomers.

Module CustomerService.
Import Validation Prisma CustomerInputs PrismaCustomers.

(** The service does not catch: an exception of the client goes to the
    caller as it is. [clientMessage] gives the message the client puts in
    it. *)
Definition createCustomer (clientMessage : KnownRequestError -> string)
    (data : CreateCustomerInput.t) (db : Store)
  : Store * Result Customer.t :=
  match customer_create data db with
  | inr (db', created) => (db', Ok created)
  | inl e => (db, Throw (clientMessage e))
  end.

(** Any exception of the client is rethrown as "Customer not found". *)
Definition updateCustomer (id : string) (data : UpdateCustomerInput.t)
    (db : Store) : Store * Result Customer.t :=
  match customer_update id data db with
  | inr (db', updated) => (db', Ok updated)
  | inl _ => (db, Throw "Customer not found")
  end.

Module DeleteResult.
Record t := mk { deletedOrdersCount : N }.
End DeleteResult.

Definition deleteCustomer (id : string) (db : Store)
  : Store * Result DeleteResult.t :=
  match customer_findUnique id db with
  | None => (db, Throw "Customer not found")
  | Some _ =>
      match customer_delete id db with
      | Some db' => (db', Ok (DeleteResult.mk (customer_orderCount id db)))
      | None => (db, Throw "Customer not found")
      end
  end.

End CustomerService.

Module CustomerController.
Import Types Validation Prisma CustomerInputs PrismaCustomers.

Definition Res := HttpResponse.t Customer.t.

Definition createCustomer (clientMessage : KnownRequestError -> string)
    (body : CreateCustomerInput.t) (db : Store) : Store * Res :=
  match CustomerService.createCustomer clientMessage body db with
  | (db', Ok customer) =>
      (db', ApiResponseUtil.success "Customer created successfully"
              (Some customer) (Some 201%N) None)
  | (db', Throw message) =>
      (db', ApiResponseUtil.error "Failed to create customer" (Some message)
              None)
  end.

Definition updateCustomer (id : string) (body : UpdateCustomerInput.t)
    (db : Store) : Store * Res :=
  match CustomerService.updateCustomer id body db with
  | (db', Ok customer) =>
      (db', ApiResponseUtil.success "Customer updated successfully"
              (Some customer) None None)
  | (db', Throw _) => (db', ApiResponseUtil.notFound (Some "Customer"))
  end.

Definition deleteCustomer (id : string) (db : Store) : Store * Res :=
  match CustomerService.deleteCustomer id db with
  | (db', Ok result) =>
      let count := CustomerService.DeleteResult.deletedOrdersCount result in
      let message :=
        if (0 <? count)%N
        then "Customer and " +:+ Js.toString count
               +:+ " associated orders deleted successfully"
        else "Customer deleted successfully" in
      (db', ApiResponseUtil.success message None None None)
  | (db', Throw _) => (db', ApiResponseUtil.notFound (Some "Customer"))
  end.

End CustomerController.

(** ** Vocabulary of the properties *)

Module Props.
Import Types Validation Prisma.

(** The envelope of a refusal: no data, no error detail, no pagination. *)
Definition refusal {T} (code : N) (message : string) : HttpResponse.t T :=
  HttpResponse.mk code (ApiResponse.mk false message None None None).

(** The envelope of a failure that carries the error's message. *)
Definition failure {T} (code : N) (message detail : string)
  : HttpResponse.t T :=
  HttpResponse.mk code (ApiResponse.mk false message None (Some detail) None).

Fixpoint hasSpace (s : string) : bool :=
  match s with
  | EmptyString => false
  | String a rest => Ascii.eqb a " " || hasSpace rest
  end.

(** Everything that follows the first space of [s]; [None] without one. *)
Fixpoint afterFirstSpace (s : string) : option string :=
  match s with
  | EmptyString => None
  | String a rest =>
      if Ascii.eqb a " " then Some rest else afterFirstSpace rest
  end.

(** What precedes the first space of [s]; all of [s] without one. *)
Fixpoint upToSpace (s : string) : string :=
  match s with
  | EmptyString => ""
  | String a rest =>
      if Ascii.eqb a " " then "" else String a (upToSpace rest)
  end.

(** A verifier that accepts one credential only. *)
Definition acceptOnly (good : string) (who : JwtPayload.t) (tok : string)
  : Result JwtPayload.t :=
  if String.eqb tok good then Ok who else Throw "invalid signature".

Definition alice : JwtPayload.t := JwtPayload.mk "c7" "alice@example.com".

(** *** Totals *)

(** The sum of the line totals the rows hold, in row order and in the
    arithmetic of the code. *)
Definition sumTotalPrice (rows : list OrderItem.t) : Js.number :=
  fold_left (fun sum it => (sum + OrderItem.totalPrice it)%float) rows
    0%float.

Definition lineConsistent (it : OrderItem.t) : Prop :=
  OrderItem.totalPrice it
  = (OrderItem.quantity it * OrderItem.unitPrice it)%float.

Definition orderConsistent (db : Store) (o : Order.t) : Prop :=
  Order.totalAmount o = sumTotalPrice (itemsOf (Order.id o) db)
  /\ Forall lineConsistent (itemsOf (Order.id o) db).

Definition consistentStore (db : Store) : Prop :=
  Forall (orderConsistent db) (orders db).

(** The input item a row was made of. *)
Definition inputOf (it : OrderItem.t) : OrderItemInput.t :=
  OrderItemInput.mk (OrderItem.productName it) (OrderItem.quantity it)
    (OrderItem.unitPrice it).

(** *** Identifiers *)

Definition allocated (db : Store) (id : string) : Prop :=
  exists k, (k < nextId db)%N /\ id = cuid k.

(** Every identifier in the order tables came from the store's counter,
    and no two rows of a table share one. *)
Record wellFormed (db : Store) : Prop := mkWellFormed
  { wf_orders : Forall (fun o => allocated db (Order.id o)) (orders db);
    wf_items :
      Forall (fun it => allocated db (OrderItem.id it)
                        /\ allocated db (OrderItem.orderId it))
        (orderItems db);
    wf_order_ids : NoDup (Order.id <$> orders db);
    wf_item_ids : NoDup (OrderItem.id <$> orderItems db) }.

(** One call of the order service that changes the store. *)
Inductive serviceStep (db : Store) : Store -> Prop :=
| step_create fullYear data db' out :
    OrderService.createOrder fullYear data db = (db', Ok out) ->
    serviceStep db db'
| step_update id data db' out :
    OrderService.updateOrder id data db = (db', Ok out) ->
    serviceStep db db'
| step_delete id db' :
    OrderService.deleteOrder id db = (db', Ok tt) ->
    serviceStep db db'.

(** One call of a service, run alone, that changes the store and removes
    no order: every successful call of the order and customer services but
    [deleteOrder] and a [deleteCustomer] that takes orders with it. *)
Inductive growthStep (db : Store) : Store -> Prop :=
| grow_create fullYear data db' out :
    OrderService.createOrder fullYear data db = (db', Ok out) ->
    growthStep db db'
| grow_update id data db' out :
    OrderService.updateOrder id data db = (db', Ok out) ->
    growthStep db db'
| grow_createCustomer clientMessage data db' created :
    CustomerService.createCustomer clientMessage data db
    = (db', Ok created) ->
    growthStep db db'
| grow_updateCustomer id data db' updated :
    CustomerService.updateCustomer id data db = (db', Ok updated) ->
    growthStep db db'
| grow_deleteCustomer id db' :
    CustomerService.deleteCustomer id db
    = (db', Ok (CustomerService.DeleteResult.mk 0)) ->
    growthStep db db'.

Inductive runOf (step : Store -> Store -> Prop) (db : Store)
  : Store -> Prop :=
| run_here : runOf step db db
| run_more mid db' :
    runOf step db mid -> step mid db' -> runOf step db db'.

Definition serviceRun : Store -> Store -> Prop := runOf serviceStep.
Definition growthRun : Store -> Store -> Prop := runOf growthStep.

(** *** Order numbers *)

Fixpoint allDigits (s : string) : bool :=
  match s with
  | EmptyString => true
  | String a rest => Js.isDigit a && allDigits rest
  end.

(** The number a string of decimal digits denotes, leading zeros
    allowed. *)
Fixpoint decimalValueFrom (acc : N) (s : string) : N :=
  match s with
  | EmptyString => acc
  | String a rest => decimalValueFrom (acc * 10 + (N_of_ascii a - 48)) rest
  end.

Definition decimalValue (s : string) : N := decimalValueFrom 0 s.

(** The pattern ORD-dddd-dddddd, anchored at both ends. *)
Definition matchesOrderPattern (s : string) : bool :=
  (String.length s =? 15)%nat
  && String.eqb (substring 0 4 s) "ORD-"
  && allDigits (substring 4 4 s)
  && String.eqb (substring 8 1 s) "-"
  && allDigits (substring 9 6 s).

(** Decimal notation without leading zeros, digit by digit. *)
Inductive decimalOf : N -> string -> Prop :=
| decimal_digit d :
    (0 < d < 10)%N -> decimalOf d (String (pretty_N_char d) "")
| decimal_more x d ds :
    decimalOf x ds -> (d < 10)%N ->
    decimalOf (10 * x + d) (ds +:+ String (pretty_N_char d) "").

(** Every order carries a number made from a count below the present
    one. *)
Definition numberedBelow (db : Store) : Prop :=
  Forall
    (fun o => exists fullYear count,
                (count < order_count db)%N
                /\ Order.orderNumber o
                   = OrderService.orderNumber fullYear count)
    (orders db).

(** *** A small store to run the services on *)

Definition admin : User.t :=
  User.mk "c0" "admin@example.com" "hashed:admin123" 0.

Definition wilson : Customer.t :=
  Customer.mk "c1" "Alice" "Wilson" "alice@example.com" None None.

Definition seeded : Store := mkStore [admin] [wilson] [] [] 2.

Definition sampleCompare (password hashed : string) : bool :=
  String.eqb ("hashed:" +:+ password) hashed.

Definition sampleSign (p : JwtPayload.t) : string :=
  "signed:" +:+ JwtPayload.userId p.

Definition oneCable : UpdateOrderInput.t :=
  UpdateOrderInput.mk (Some SHIPPED) None
    (Some [OrderItemInput.mk "Cable" 3%float 0.1%float]).

Definition shipIt : UpdateOrderInput.t :=
  UpdateOrderInput.mk (Some SHIPPED) (Some "leave at the door") None.

Definition laptopAndMice : CreateOrderInput.t :=
  CreateOrderInput.mk "c1" None None
    [OrderItemInput.mk "Laptop" 1%float 999.99%float;
     OrderItemInput.mk "Wireless Mouse" 2%float 29.99%float].

(** The store after one order, after two, and with the first one deleted. *)
Definition oneOrder : Store :=
  fst (OrderService.createOrder 2024 laptopAndMice seeded).

Definition twoOrders : Store :=
  fst (OrderService.createOrder 2024 laptopAndMice oneOrder).

Definition secondOnly : Store :=
  fst (OrderService.deleteOrder "c2" twoOrders).

Definition bob : CustomerInputs.CreateCustomerInput.t :=
  CustomerInputs.CreateCustomerInput.mk "Bob" "Johnson"
    "bob.johnson@example.com" (Some "+1555123456") None.

(** A second customer with Alice's email, and an update that would give
    Bob that email. *)
Definition impostor : CustomerInputs.CreateCustomerInput.t :=
  CustomerInputs.CreateCustomerInput.mk "Alicia" "Wilson"
    "alice@example.com" None None.

Definition takeAlicesEmail : CustomerInputs.UpdateCustomerInput.t :=
  CustomerInputs.UpdateCustomerInput.mk None None (Some "alice@example.com")
    None None.

Definition sampleMessage (e : PrismaCustomers.KnownRequestError) : string :=
  match e with
  | PrismaCustomers.P2002 => "Unique constraint failed"
  | PrismaCustomers.P2025 => "Record not found"
  end.

(** The store with Alice's two orders and Bob as a second customer. *)
Definition withBob : Store :=
  fst (CustomerService.createCustomer sampleMessage bob twoOrders).

End Props.

(** ** src/middleware/validation.ts

    A zod schema is taken as its [parse] function: it returns the typed
    payload, or throws a [ZodError] holding the issues found, or (as any
    JavaScript call may) throws something else. *)

Module ValidationMiddleware.
Import Types.

Module ZodIssue.
Record t := mk { path : list string; message : string }.
End ZodIssue.

Inductive ParseResult (T : Type) : Type :=
| Parsed (value : T)
| ZodError (errors : list ZodIssue.t)
| OtherError.
Arguments Parsed {T} value.
Arguments ZodError {T} errors.
Arguments OtherError {T}.

(** [`${err.path.join('.')}: ${err.message}`] *)
Definition issueLine (err : ZodIssue.t) : string :=
  String.concat "." (ZodIssue.path err) +:+ ": " +:+ ZodIssue.message err.

(** The middleware either answers or calls [next()] with the parsed value
    stored in the request. *)
Inductive Outcome (T : Type) : Type :=
| Responded (res : HttpResponse.t unit)
| Next (parsed : T).
Arguments Responded {T} res.
Arguments Next {T} parsed.

Definition validateBody {Raw T : Type} (schema : Raw -> ParseResult T)
    (body : Raw) : Outcome T :=
  match schema body with
  | Parsed value => Next value
  | ZodError errors =>
      Responded
        (ApiResponseUtil.error "Validation failed"
           (Some (String.concat ", " (map issueLine errors))) (Some 400%N))
  | OtherError =>
      Responded (ApiResponseUtil.serverError (Some "Validation error"))
  end.

Definition validateQuery {Raw T : Type} (schema : Raw -> ParseResult T)
    (query : Raw) : Outcome T :=
  match schema query with
  | Parsed value => Next value
  | ZodError errors =>
      Responded
        (ApiResponseUtil.error "Query validation failed"
           (Some (String.concat ", " (map issueLine errors))) (Some 400%N))
  | OtherError =>
      Responded (ApiResponseUtil.serverError (Some "Query validation error"))
  end.

End ValidationMiddleware.

(** ** src/middleware/errorHandler.ts *)

Module ErrorHandler.
Import Types.

(** An exception as the handler looks at it: its [name], its [code] when it
    has one, its [message]. *)
Module JsError.
Record t := mk { name : string; code : option string; message : string }.
End JsError.

Definition hasCode (error : JsError.t) (code : string) : bool :=
  match JsError.code error with
  | Some c => String.eqb c code
  | None => false
  end.

(** [nodeEnv] is [process.env.NODE_ENV]. *)
Definition errorHandler (nodeEnv : option string) (error : JsError.t)
  : HttpResponse.t unit :=
  let fallback :=
    ApiResponseUtil.serverError
      (match nodeEnv with
       | Some env =>
           if String.eqb env "development" then Some (JsError.message error)
           else None
       | None => None
       end) in
  if String.eqb (JsError.name error) "PrismaClientKnownRequestError" then
    if hasCode error "P2002" then
      ApiResponseUtil.error "Unique constraint violation"
        (Some "Resource already exists") (Some 409%N)
    else if hasCode error "P2025" then
      ApiResponseUtil.notFound (Some "Resource")
    else fallback
  else fallback.

End ErrorHandler.

(** ** src/routes/orderRoutes.ts

    Every route runs the gate first ([router.use(authenticateToken)]), then
    its validator when it has one, then its handler. The listing handler is
    taken as it comes. *)

Module OrderRoutes.
Import Types Validation Prisma ValidationMiddleware.

Definition Res := HttpResponse.t OrderWithRelations.t.

(** An envelope sent by a middleware, at the type of the route's answers. *)
Definition relay {T} (res : HttpResponse.t unit) : HttpResponse.t T :=
  HttpResponse.mk (HttpResponse.statusCode res)
    (ApiResponse.mk (ApiResponse.success (HttpResponse.body res))
       (ApiResponse.message (HttpResponse.body res)) None
       (ApiResponse.error (HttpResponse.body res))
       (ApiResponse.pagination (HttpResponse.body res))).

Section Router.
Context {RawBody RawQuery Listing : Type}.
Variable verifyToken : string -> Result JwtPayload.t.
Variable createOrderSchema : RawBody -> ParseResult CreateOrderInput.t.
Variable updateOrderSchema : RawBody -> ParseResult UpdateOrderInput.t.
Variable paginationSchema : RawQuery -> ParseResult PaginationInput.t.
Variable getOrders : PaginationInput.t -> Store -> HttpResponse.t Listing.

Definition guarded {T} (req : Auth.Request.t) (db : Store)
    (route : Store * HttpResponse.t T) : Store * HttpResponse.t T :=
  match Auth.authenticateToken verifyToken req with
  | Auth.Responded res => (db, relay res)
  | Auth.Next _ => route
  end.

Definition postOrder (fullYear : N) (req : Auth.Request.t) (body : RawBody)
    (db : Store) : Store * Res :=
  guarded req db
    match validateBody createOrderSchema body with
    | Responded res => (db, relay res)
    | Next data => OrderController.createOrder fullYear data db
    end.

Definition listOrders (req : Auth.Request.t) (query : RawQuery) (db : Store)
  : Store * HttpResponse.t Listing :=
  guarded req db
    match validateQuery paginationSchema query with
    | Responded res => (db, relay res)
    | Next pagination => (db, getOrders pagination db)
    end.

Definition getOrder (req : Auth.Request.t) (id : string) (db : Store)
  : Store * Res :=
  guarded req db (db, OrderController.getOrderById id db).

Definition putOrder (req : Auth.Request.t) (id : string) (body : RawBody)
    (db : Store) : Store * Res :=
  guarded req db
    match validateBody updateOrderSchema body with
    | Responded res => (db, relay res)
    | Next data => OrderController.updateOrder id data db
    end.

Definition deleteOrder (req : Auth.Request.t) (id : string) (db : Store)
  : Store * Res :=
  guarded req db (OrderController.deleteOrder id db).

End Router.

End OrderRoutes.

(** ** Vocabulary of the further properties *)

Module MoreProps.
Import Types Validation Prisma ValidationMiddleware Props.

(** An envelope is either a success (200 or 201, no error detail) or a
    failure (status 400 or above, no data). *)
Definition wellShaped {T} (res : HttpResponse.t T) : Prop :=
  let body := HttpResponse.body res in
  (ApiResponse.success body = true
   /\ (HttpResponse.statusCode res = 200%N
       \/ HttpResponse.statusCode res = 201%N)
   /\ ApiResponse.error body = None)
  \/ (ApiResponse.success body = false
      /\ (400 <= HttpResponse.statusCode res)%N
      /\ ApiResponse.data body = None).

(** What an update can never touch in an order. *)
Definition orderKeys (o : Order.t) : string * string * string :=
  (Order.id o, Order.orderNumber o, Order.customerId o).

(** A schema over bodies that are either a well-typed payload or junk. *)
Definition sampleSchema {T} (body : option T) : ParseResult T :=
  match body with
  | Some payload => Parsed payload
  | None => ZodError [ZodIssue.mk ["items"; "0"; "quantity"] "Required"]
  end.

(** A raw body read as a creation payload, as an update payload, or as
    neither. *)
Definition SampleBody : Type :=
  option CreateOrderInput.t * option UpdateOrderInput.t.

Definition sampleCreateSchema (body : SampleBody)
  : ParseResult CreateOrderInput.t := sampleSchema (fst body).

Definition sampleUpdateSchema (body : SampleBody)
  : ParseResult UpdateOrderInput.t := sampleSchema (snd body).

Definition sampleVerify : string -> Result JwtPayload.t :=
  acceptOnly "good" alice.

Definition sampleListing (pagination : PaginationInput.t) (db : Store)
  : HttpResponse.t (list Order.t) :=
  ApiResponseUtil.success "Orders retrieved successfully" (Some (orders db))
    None None.

Definition samplePagination (query : PaginationQuery.t)
  : ParseResult PaginationInput.t :=
  Parsed (paginationSchema query).

Definition renameAlice : CustomerInputs.UpdateCustomerInput.t :=
  CustomerInputs.UpdateCustomerInput.mk None (Some "Wilson-Smith") None
    (Some "+1555000111") None.

Definition emptied : UpdateOrderInput.t :=
  UpdateOrderInput.mk None None (Some []).

Definition anonymous : Auth.Request.t := Auth.Request.mk None None.

Definition bearer (tok : string) : Auth.Request.t :=
  Auth.Request.mk (Some ("Bearer " +:+ tok)) None.

End MoreProps.

(** * Properties *)

Import Types Validation Prisma Props.

(** ** The auth gate *)

Lemma split_no_space s : hasSpace s = false -> Js.split " " s = [s].
Proof.
  induction s as [|a s IH]; simpl; [done|].
  destruct (Ascii.eqb a " "); simpl; [done|].
  intros H. by rewrite (IH H).
Qed.

Lemma split_at_space scheme rest :
  hasSpace scheme = false ->
  Js.split " " (scheme +:+ " " +:+ rest) = scheme :: Js.split " " rest.
Proof.
  induction scheme as [|a s IH]; simpl; [done|].
  destruct (Ascii.eqb a " "); simpl; [done|].
  intros H. by rewrite (IH H).
Qed.

Lemma split_head s : exists rest, Js.split " " s = upToSpace s :: rest.
Proof.
  induction s as [|a s [rest IH]]; simpl; [by eexists|].
  destruct (Ascii.eqb a " "); [by eexists|].
  rewrite IH. by eexists.
Qed.

Lemma upToSpace_no_space s : hasSpace s = false -> upToSpace s = s.
Proof.
  induction s as [|a s IH]; simpl; [done|].
  destruct (Ascii.eqb a " "); simpl; [done|].
  intros H. by rewrite (IH H).
Qed.

Lemma token_of_header scheme rest u :
  hasSpace scheme = false ->
  Auth.token (Auth.Request.mk (Some (scheme +:+ " " +:+ rest)) u)
  = Some (upToSpace rest).
Proof.
  intros Hs. unfold Auth.token; simpl.
  destruct (String.eqb_spec (scheme +:+ " " +:+ rest) "") as [E|_].
  { destruct scheme; discriminate E. }
  rewrite split_at_space by done.
  destruct (split_head rest) as [tl ->]. reflexivity.
Qed.

Lemma falsy_token_no_space h u :
  hasSpace h = false -> Auth.falsy (Auth.token (Auth.Request.mk (Some h) u)) = true.
Proof.
  intros Hs. unfold Auth.token; simpl.
  destruct (String.eqb_spec h "") as [->|_]; [done|].
  by rewrite split_no_space.
Qed.

(** C5. On a protected route the gate answers 401 "Access token required"
    when the request carries no token (no Authorization header, or a header
    from which no token is read); it answers 401 "Invalid or expired token"
    when the token is read and verification throws, whatever the error
    thrown; and when verification returns an identity it stores that
    identity in the request and hands the request on. *)
Theorem authenticateToken_outcomes
    (verifyToken : string -> Result JwtPayload.t) (req : Auth.Request.t) :
  (Auth.Request.authorization req = None ->
     Auth.authenticateToken verifyToken req
     = Auth.Responded (refusal 401 "Access token required"))
  /\ (Auth.falsy (Auth.token req) = true ->
        Auth.authenticateToken verifyToken req
        = Auth.Responded (refusal 401 "Access token required"))
  /\ (forall tok cause,
        Auth.token req = Some tok -> tok <> "" ->
        verifyToken tok = Throw cause ->
        Auth.authenticateToken verifyToken req
        = Auth.Responded (refusal 401 "Invalid or expired token"))
  /\ (forall tok identity,
        Auth.token req = Some tok -> tok <> "" ->
        verifyToken tok = Ok identity ->
        Auth.authenticateToken verifyToken req
        = Auth.Next
            (Auth.Request.mk (Auth.Request.authorization req) (Some identity))).
Proof.
  unfold Auth.authenticateToken. repeat split.
  - intros H. unfold Auth.token. by rewrite H.
  - by intros ->.
  - intros tok cause -> Hne Hv; simpl.
    destruct (String.eqb_spec tok "") as [E|_]; [done|]. by rewrite Hv.
  - intros tok identity -> Hne Hv; simpl.
    destruct (String.eqb_spec tok "") as [E|_]; [done|]. by rewrite Hv.
Qed.

Lemma authenticateToken_outcomes_witness :
  Auth.authenticateToken (acceptOnly "good" alice) (Auth.Request.mk None None)
  = Auth.Responded (refusal 401 "Access token required")
  /\ Auth.authenticateToken (acceptOnly "good" alice)
       (Auth.Request.mk (Some "Bearer stale") None)
     = Auth.Responded (refusal 401 "Invalid or expired token")
  /\ Auth.authenticateToken (acceptOnly "good" alice)
       (Auth.Request.mk (Some "Bearer good") None)
     = Auth.Next (Auth.Request.mk (Some "Bearer good") (Some alice)).
Proof.
  split; [|split].
  - apply (authenticateToken_outcomes (acceptOnly "good" alice)
             (Auth.Request.mk None None)).
    reflexivity.
  - destruct (authenticateToken_outcomes (acceptOnly "good" alice)
                (Auth.Request.mk (Some "Bearer stale") None))
      as (_ & _ & Hbad & _).
    apply (Hbad "stale" "invalid signature"); [reflexivity|discriminate|reflexivity].
  - destruct (authenticateToken_outcomes (acceptOnly "good" alice)
                (Auth.Request.mk (Some "Bearer good") None))
      as (_ & _ & _ & Hgood).
    apply (Hgood "good" alice); [reflexivity|discriminate|reflexivity].
Defined.

(** C10, as the claim words it, fails: from the header "Bearer abc def" the
    gate reads "abc", not the "abc def" that follows the first space, and a
    verifier that accepts "abc def" alone sees the request refused. *)
Lemma token_not_rest_of_header :
  let req := Auth.Request.mk (Some "Bearer abc def") None in
  afterFirstSpace "Bearer abc def" = Some "abc def"
  /\ Auth.token req = Some "abc"
  /\ Auth.token req <> afterFirstSpace "Bearer abc def"
  /\ Auth.authenticateToken (acceptOnly "abc def" alice) req
     = Auth.Responded (refusal 401 "Invalid or expired token").
Proof. repeat split. discriminate. Qed.

(** C10, amended. The gate never looks at the scheme. Of a header
    [scheme ++ " " ++ rest] whose scheme holds no space it reads the part of
    [rest] before the next space (all of [rest] when it holds none): that
    part, when not empty, is what gets verified, whatever the scheme; an
    empty part is a missing token. A header without a space is a missing
    token too, answered 401 "Access token required". *)
Theorem token_is_second_piece
    (verifyToken : string -> Result JwtPayload.t)
    (scheme rest : string) (u : option JwtPayload.t) :
  hasSpace scheme = false ->
  let header := scheme +:+ " " +:+ rest in
  let req := Auth.Request.mk (Some header) u in
  Auth.token req = Some (upToSpace rest)
  /\ (hasSpace rest = false -> Auth.token req = Some rest)
  /\ (upToSpace rest <> "" ->
        Auth.authenticateToken verifyToken req
        = match verifyToken (upToSpace rest) with
          | Ok identity => Auth.Next (Auth.Request.mk (Some header) (Some identity))
          | Throw _ => Auth.Responded (refusal 401 "Invalid or expired token")
          end)
  /\ (upToSpace rest = "" ->
        Auth.authenticateToken verifyToken req
        = Auth.Responded (refusal 401 "Access token required"))
  /\ Auth.authenticateToken verifyToken (Auth.Request.mk (Some scheme) u)
     = Auth.Responded (refusal 401 "Access token required").
Proof.
  intros Hs header req.
  assert (Ht : Auth.token req = Some (upToSpace rest))
    by (apply token_of_header; exact Hs).
  split; [exact Ht|]. split; [|split; [|split]].
  - intros Hr. by rewrite Ht, upToSpace_no_space.
  - intros Hne. unfold Auth.authenticateToken. rewrite Ht; simpl.
    destruct (String.eqb_spec (upToSpace rest) "") as [E|_]; [done|].
    reflexivity.
  - intros He. unfold Auth.authenticateToken. rewrite Ht, He. reflexivity.
  - unfold Auth.authenticateToken.
    by rewrite (falsy_token_no_space scheme u Hs).
Qed.

Lemma token_is_second_piece_witness :
  Auth.token (Auth.Request.mk (Some "Basic good") None) = Some "good"
  /\ Auth.authenticateToken (acceptOnly "good" alice)
       (Auth.Request.mk (Some "Basic good") None)
     = Auth.Next (Auth.Request.mk (Some "Basic good") (Some alice))
  /\ Auth.authenticateToken (acceptOnly "good" alice)
       (Auth.Request.mk (Some "Basic") None)
     = Auth.Responded (refusal 401 "Access token required").
Proof.
  destruct (token_is_second_piece (acceptOnly "good" alice) "Basic" "good" None
              eq_refl) as (Ht & _ & Hv & _ & Hn).
  split; [exact Ht|]. split; [|exact Hn].
  apply Hv. discriminate.
Defined.

(** ** Login *)

(** C6. A login that fails answers the same way whatever the cause: an
    unknown email and a wrong password for a known user both throw
    "Invalid credentials", no failing login throws anything else, and the
    handler's response (401, "Login failed", that detail) is the same. *)
Theorem login_failures_alike
    (comparePassword : string -> string -> bool)
    (generateToken : JwtPayload.t -> string)
    (credentials : LoginInput.t) (db : Store) :
  let rejected : HttpResponse.t AuthService.LoginResult.t :=
    failure 401 "Login failed" "Invalid credentials" in
  (user_findUnique (LoginInput.email credentials) db = None ->
     AuthService.login comparePassword generateToken credentials db
     = Throw "Invalid credentials"
     /\ AuthController.login comparePassword generateToken credentials db
        = rejected)
  /\ (forall user,
        user_findUnique (LoginInput.email credentials) db = Some user ->
        comparePassword (LoginInput.password credentials) (User.password user)
        = false ->
        AuthService.login comparePassword generateToken credentials db
        = Throw "Invalid credentials"
        /\ AuthController.login comparePassword generateToken credentials db
           = rejected)
  /\ (forall message,
        AuthService.login comparePassword generateToken credentials db
        = Throw message ->
        message = "Invalid credentials"
        /\ AuthController.login comparePassword generateToken credentials db
           = rejected).
Proof.
  intros rejected. unfold AuthController.login, AuthService.login.
  split; [|split].
  - by intros ->.
  - by intros user -> ->.
  - intros message.
    destruct (user_findUnique _ db) as [user|]; simpl.
    + destruct (comparePassword _ _); simpl; [discriminate|].
      by intros [= <-].
    + by intros [= <-].
Qed.

Lemma login_failures_alike_witness :
  AuthController.login sampleCompare sampleSign
    (LoginInput.mk "nobody@example.com" "admin123") seeded
  = AuthController.login sampleCompare sampleSign
      (LoginInput.mk "admin@example.com" "letmein") seeded.
Proof.
  destruct (login_failures_alike sampleCompare sampleSign
              (LoginInput.mk "nobody@example.com" "admin123") seeded)
    as (Hunknown & _ & _).
  destruct (login_failures_alike sampleCompare sampleSign
              (LoginInput.mk "admin@example.com" "letmein") seeded)
    as (_ & Hwrong & _).
  destruct (Hunknown eq_refl) as [_ ->].
  destruct (Hwrong admin eq_refl eq_refl) as [_ ->].
  reflexivity.
Defined.

(** ** Handlers of the order routes *)

Lemma order_findUnique_absent id db :
  order_findRow id db = None -> order_findUnique id db = None.
Proof. unfold order_findUnique. by intros ->. Qed.

(** C9. When the order a request names does not exist, reading, updating and
    deleting it all answer 404 "Order not found" and leave the store as it
    was. When the customer of a new order does not exist, creation answers
    with the default status 400, the message "Failed to create order" and
    the detail "Customer not found", and stores nothing. *)
Theorem absent_reference_responses
    (fullYear : N) (id : string) (update : UpdateOrderInput.t)
    (create : CreateOrderInput.t) (db : Store) :
  (order_findRow id db = None ->
     OrderController.getOrderById id db = refusal 404 "Order not found"
     /\ OrderController.updateOrder id update db
        = (db, refusal 404 "Order not found")
     /\ OrderController.deleteOrder id db
        = (db, refusal 404 "Order not found"))
  /\ (customer_findUnique (CreateOrderInput.customerId create) db = None ->
        OrderService.createOrder fullYear create db
        = (db, Throw "Customer not found")
        /\ OrderController.createOrder fullYear create db
           = (db, failure 400 "Failed to create order" "Customer not found")).
Proof.
  split.
  - intros Habs. split; [|split].
    + unfold OrderController.getOrderById, OrderService.getOrderById.
      by rewrite (order_findUnique_absent _ _ Habs).
    + unfold OrderController.updateOrder, OrderService.updateOrder,
        order_update.
      rewrite Habs. by destruct (UpdateOrderInput.items update).
    + unfold OrderController.deleteOrder, OrderService.deleteOrder,
        order_delete.
      by rewrite Habs.
  - intros Habs.
    unfold OrderController.createOrder, OrderService.createOrder.
    by rewrite Habs.
Qed.

Lemma absent_reference_responses_witness :
  OrderController.getOrderById "invalid-id" seeded
  = refusal 404 "Order not found"
  /\ snd (OrderController.createOrder 2024
            (CreateOrderInput.mk "invalid-id" None None
               [OrderItemInput.mk "Laptop" 1%float 999.99%float]) seeded)
     = failure 400 "Failed to create order" "Customer not found".
Proof.
  split.
  - apply (absent_reference_responses 2024 "invalid-id"
             (UpdateOrderInput.mk None None None) laptopAndMice seeded).
    reflexivity.
  - destruct (absent_reference_responses 2024 "invalid-id"
                (UpdateOrderInput.mk None None None)
                (CreateOrderInput.mk "invalid-id" None None
                   [OrderItemInput.mk "Laptop" 1%float 999.99%float]) seeded)
      as [_ Hcreate].
    destruct (Hcreate eq_refl) as [_ ->]. reflexivity.
Defined.

(** ** Pagination *)

(** C8, at the inputs where the code leaves the claim: a page or limit that
    is not a number comes out as NaN, and "0" and "-5" come out as 0 and -5,
    where the claim has the defaults 1 and 10. The absent and the empty
    field do get the defaults, and digit strings their value. *)
Theorem paginationSchema_values :
  paginationSchema (PaginationQuery.mk (Some "abc") (Some "ten"))
  = PaginationInput.mk nan nan
  /\ paginationSchema (PaginationQuery.mk (Some "0") (Some "-5"))
     = PaginationInput.mk 0%float (-5)%float
  /\ paginationSchema (PaginationQuery.mk None None)
     = PaginationInput.mk 1%float 10%float
  /\ paginationSchema (PaginationQuery.mk (Some "") (Some ""))
     = PaginationInput.mk 1%float 10%float
  /\ paginationSchema (PaginationQuery.mk (Some "2") (Some "5"))
     = PaginationInput.mk 2%float 5%float
  /\ PaginationInput.mk nan nan <> PaginationInput.mk 1%float 10%float.
Proof.
  repeat split; try (vm_compute; reflexivity).
  intros H. apply (f_equal PaginationInput.page) in H. simpl in H.
  apply (f_equal PrimFloat.is_nan) in H. vm_compute in H. discriminate H.
Qed.

(** ** Identifiers and rows of the store *)

Lemma cuid_inj m n : cuid m = cuid n -> m = n.
Proof.
  unfold cuid. intros H.
  change (String "c" (pretty m) = String "c" (pretty n)) in H.
  injection H as H. by apply (inj pretty).
Qed.

Lemma allocated_not_next db : ~ allocated db (cuid (nextId db)).
Proof. intros (k & Hk & E). apply cuid_inj in E. lia. Qed.

Lemma allocated_mono db db' id :
  (nextId db <= nextId db')%N -> allocated db id -> allocated db' id.
Proof. intros Hle (k & Hk & ->). exists k. split; [lia|done]. Qed.

Lemma createItems_orderId oid start news :
  Forall (fun it => OrderItem.orderId it = oid) (createItems oid start news).
Proof.
  revert start. induction news as [|n news IH]; intros start; simpl.
  - constructor.
  - constructor; [done|apply IH].
Qed.

Lemma createItems_ids oid start news it :
  it ∈ createItems oid start news ->
  exists k, (start <= k < start + N.of_nat (length news))%N
            /\ OrderItem.id it = cuid k.
Proof.
  revert start. induction news as [|n news IH]; intros start; simpl.
  - intros H. by apply elem_of_nil in H.
  - intros [->|H]%elem_of_cons.
    + exists start. simpl. split; [lia|done].
    + destruct (IH _ H) as (k & Hk & E). exists k. split; [lia|done].
Qed.

Lemma createItems_NoDup oid start news :
  NoDup (OrderItem.id <$> createItems oid start news).
Proof.
  revert start. induction news as [|n news IH]; intros start; simpl.
  - constructor.
  - constructor; [|apply IH].
    intros (it & E & Hin)%list_elem_of_fmap.
    destruct (createItems_ids _ _ _ _ Hin) as (k & Hk & E').
    rewrite E' in E. apply cuid_inj in E. lia.
Qed.

Lemma filter_all_same oid (rows : list OrderItem.t) :
  Forall (fun it => OrderItem.orderId it = oid) rows ->
  filter (fun it => OrderItem.orderId it = oid) rows = rows.
Proof.
  induction 1 as [|it rows Hit _ IH]; [done|].
  rewrite filter_cons_True by done. by rewrite IH.
Qed.

Lemma filter_none_same oid (rows : list OrderItem.t) :
  Forall (fun it => OrderItem.orderId it ≠ oid) rows ->
  filter (fun it => OrderItem.orderId it = oid) rows = [].
Proof.
  induction 1 as [|it rows Hit _ IH]; [done|].
  by rewrite filter_cons_False.
Qed.

Lemma filter_after_removal_other oid other (rows : list OrderItem.t) :
  other ≠ oid ->
  filter (fun it => OrderItem.orderId it = other)
    (filter (fun it => OrderItem.orderId it ≠ oid) rows)
  = filter (fun it => OrderItem.orderId it = other) rows.
Proof.
  intros Hne. induction rows as [|it rows IH]; [done|].
  destruct (decide (OrderItem.orderId it = oid)) as [E|E].
  - rewrite (filter_cons_False (fun it => OrderItem.orderId it ≠ oid))
      by (intros H; by apply H).
    rewrite (filter_cons_False (fun it => OrderItem.orderId it = other))
      by congruence.
    exact IH.
  - rewrite (filter_cons_True (fun it => OrderItem.orderId it ≠ oid))
      by done.
    destruct (decide (OrderItem.orderId it = other)) as [E'|E'].
    + rewrite !(filter_cons_True (fun it => OrderItem.orderId it = other))
        by done.
      by rewrite IH.
    + rewrite !(filter_cons_False (fun it => OrderItem.orderId it = other))
        by done.
      exact IH.
Qed.

Lemma filter_after_removal_same oid (rows : list OrderItem.t) :
  filter (fun it => OrderItem.orderId it = oid)
    (filter (fun it => OrderItem.orderId it ≠ oid) rows) = [].
Proof.
  apply filter_none_same, list.Forall_forall.
  intros it Hin. by apply list_elem_of_filter in Hin as [? _].
Qed.

(** ** Totals *)

Lemma createItems_rows oid start items :
  map inputOf (createItems oid start (map OrderService.withTotalPrice items))
  = items
  /\ Forall lineConsistent
       (createItems oid start (map OrderService.withTotalPrice items)).
Proof.
  revert start. induction items as [|[name q p] items IH]; intros start; simpl.
  - split; [done|constructor].
  - destruct (IH (N.succ start)) as [E F]. split.
    + by rewrite E.
    + constructor; [|exact F]. reflexivity.
Qed.

Lemma sum_createItems_from acc oid start items :
  fold_left (fun sum it => (sum + OrderItem.totalPrice it)%float)
    (createItems oid start (map OrderService.withTotalPrice items)) acc
  = fold_left (fun sum item => (sum + OrderService.lineTotal item)%float)
      items acc.
Proof.
  revert acc start. induction items as [|item items IH]; intros acc start.
  - reflexivity.
  - simpl. apply IH.
Qed.

Lemma sum_createItems oid start items :
  sumTotalPrice (createItems oid start (map OrderService.withTotalPrice items))
  = OrderService.totalOf items.
Proof. apply sum_createItems_from. Qed.

(** ** What one call does to the store *)

Lemma order_findRow_Some id db o :
  order_findRow id db = Some o -> o ∈ orders db /\ Order.id o = id.
Proof.
  unfold order_findRow. intros H. apply find_some in H as [Hin He].
  split; [by apply list_elem_of_In|by apply String.eqb_eq].
Qed.

Lemma order_findRow_None id db :
  order_findRow id db = None -> Forall (fun o => Order.id o ≠ id) (orders db).
Proof.
  unfold order_findRow. intros H. apply list.Forall_forall. intros o Hin E.
  apply list_elem_of_In in Hin.
  pose proof (find_none _ _ H o Hin) as Hf. simpl in Hf.
  apply String.eqb_neq in Hf. by apply Hf.
Qed.

Lemma createOrder_inv fullYear data db db' out :
  OrderService.createOrder fullYear data db = (db', Ok out) ->
  let id := cuid (nextId db) in
  let items := CreateOrderInput.items data in
  let row :=
    Order.mk id (OrderService.orderNumber fullYear (order_count db))
      (default PENDING (CreateOrderInput.status data))
      (OrderService.totalOf items) (CreateOrderInput.notes data)
      (CreateOrderInput.customerId data) in
  is_Some (customer_findUnique (CreateOrderInput.customerId data) db)
  /\ db' = mkStore (users db) (customers db) (orders db ++ [row])
             (orderItems db
                ++ createItems id (N.succ (nextId db))
                     (map OrderService.withTotalPrice items))
             (N.succ (nextId db) + N.of_nat (length items))
  /\ out = include row db'.
Proof.
  unfold OrderService.createOrder, order_create.
  destruct (customer_findUnique _ db) as [c|]; [|discriminate].
  simpl. rewrite length_map. intros [= <- <-]. by split; [eexists|].
Qed.

Lemma createOrder_succeeds fullYear data db :
  is_Some (customer_findUnique (CreateOrderInput.customerId data) db) ->
  exists db' out, OrderService.createOrder fullYear data db = (db', Ok out).
Proof.
  intros [c Hc]. unfold OrderService.createOrder. rewrite Hc.
  destruct (order_create _ db) as [db' out]. by exists db', out.
Qed.

Lemma updateOrder_items_inv id data items db db' out :
  UpdateOrderInput.items data = Some items ->
  OrderService.updateOrder id data db = (db', Ok out) ->
  exists o,
    order_findRow id db = Some o
    /\ let row :=
         Order.mk (Order.id o) (Order.orderNumber o)
           (default (Order.status o) (UpdateOrderInput.status data))
           (OrderService.totalOf items)
           (match UpdateOrderInput.notes data with
            | Some n => Some n
            | None => Order.notes o
            end)
           (Order.customerId o) in
       db' = mkStore (users db) (customers db)
               (map (replaceRow id row) (orders db))
               (filter (fun it => OrderItem.orderId it ≠ id) (orderItems db)
                  ++ createItems id (nextId db)
                       (map OrderService.withTotalPrice items))
               (nextId db + N.of_nat (length items))
       /\ out = include row db'.
Proof.
  intros Hitems. unfold OrderService.updateOrder, order_update.
  rewrite Hitems.
  destruct (order_findRow id db) as [o|]; [|discriminate].
  simpl. rewrite length_map. intros [= <- <-]. by exists o.
Qed.

Lemma updateOrder_plain_inv id data db db' out :
  UpdateOrderInput.items data = None ->
  OrderService.updateOrder id data db = (db', Ok out) ->
  exists o,
    order_findRow id db = Some o
    /\ let row :=
         Order.mk (Order.id o) (Order.orderNumber o)
           (default (Order.status o) (UpdateOrderInput.status data))
           (Order.totalAmount o)
           (match UpdateOrderInput.notes data with
            | Some n => Some n
            | None => Order.notes o
            end)
           (Order.customerId o) in
       db' = mkStore (users db) (customers db)
               (map (replaceRow id row) (orders db))
               (orderItems db) (nextId db)
       /\ out = include row db'.
Proof.
  intros Hitems. unfold OrderService.updateOrder, order_update.
  rewrite Hitems.
  destruct (order_findRow id db) as [o|]; [|discriminate].
  simpl. intros [= <- <-]. by exists o.
Qed.

Lemma updateOrder_fails id data db db' message :
  OrderService.updateOrder id data db = (db', Throw message) ->
  db' = db /\ message = "Order not found" /\ order_findRow id db = None.
Proof.
  unfold OrderService.updateOrder, order_update.
  destruct (UpdateOrderInput.items data);
    destruct (order_findRow id db); simpl; intros [= <- <-]; done.
Qed.

Lemma updateOrder_succeeds id data db :
  is_Some (order_findRow id db) ->
  exists db' out, OrderService.updateOrder id data db = (db', Ok out).
Proof.
  intros [o Ho]. unfold OrderService.updateOrder, order_update. rewrite Ho.
  destruct (UpdateOrderInput.items data); simpl; by do 2 eexists.
Qed.

Lemma deleteOrder_inv id db db' :
  OrderService.deleteOrder id db = (db', Ok tt) ->
  is_Some (order_findRow id db)
  /\ db' = mkStore (users db) (customers db)
             (filter (fun o => Order.id o ≠ id) (orders db))
             (filter (fun it => OrderItem.orderId it ≠ id) (orderItems db))
             (nextId db).
Proof.
  unfold OrderService.deleteOrder, order_delete.
  destruct (order_findRow id db) as [o|]; [|discriminate].
  intros [= <-]. by split; [eexists|].
Qed.

(** Looking rows up after [replaceRow]. *)

Lemma replaceRow_hit id row x : Order.id x = id -> replaceRow id row x = row.
Proof. unfold replaceRow. intros ->. by rewrite String.eqb_refl. Qed.

Lemma replaceRow_miss id row x : Order.id x ≠ id -> replaceRow id row x = x.
Proof.
  unfold replaceRow. intros H. by destruct (String.eqb_spec (Order.id x) id).
Qed.

Lemma find_replaceRow_other id other row (rows : list Order.t) :
  Order.id row = id -> other ≠ id ->
  find (fun o => String.eqb (Order.id o) other) (map (replaceRow id row) rows)
  = find (fun o => String.eqb (Order.id o) other) rows.
Proof.
  intros Hrow Hne. induction rows as [|x rows IH]; [done|]. simpl.
  destruct (decide (Order.id x = id)) as [E|E].
  - rewrite (replaceRow_hit _ _ _ E), Hrow.
    destruct (String.eqb_spec id other) as [E'|_]; [congruence|].
    destruct (String.eqb_spec (Order.id x) other) as [E'|_]; [congruence|].
    exact IH.
  - rewrite (replaceRow_miss _ _ _ E).
    destruct (String.eqb (Order.id x) other); [done|exact IH].
Qed.

Lemma find_replaceRow_same id row (rows : list Order.t) o :
  Order.id row = id ->
  find (fun o => String.eqb (Order.id o) id) rows = Some o ->
  find (fun o => String.eqb (Order.id o) id) (map (replaceRow id row) rows)
  = Some row.
Proof.
  intros Hrow. induction rows as [|x rows IH]; [done|]. simpl.
  destruct (decide (Order.id x = id)) as [E|E].
  - rewrite (replaceRow_hit _ _ _ E), Hrow, String.eqb_refl. done.
  - rewrite (replaceRow_miss _ _ _ E).
    destruct (String.eqb_spec (Order.id x) id) as [E'|_]; [done|]. exact IH.
Qed.

Lemma find_appended id row (rows : list Order.t) :
  Forall (fun o => Order.id o ≠ id) rows -> Order.id row = id ->
  find (fun o => String.eqb (Order.id o) id) (rows ++ [row]) = Some row.
Proof.
  intros Hrows Hrow. induction Hrows as [|x rows Hx _ IH]; simpl.
  - by rewrite Hrow, String.eqb_refl.
  - by destruct (String.eqb_spec (Order.id x) id).
Qed.

Lemma replaceRow_ids id row (rows : list Order.t) :
  Order.id row = id ->
  Order.id <$> map (replaceRow id row) rows = Order.id <$> rows.
Proof.
  intros Hrow. induction rows as [|x rows IH]; [done|].
  change (Order.id (replaceRow id row x)
            :: (Order.id <$> map (replaceRow id row) rows)
          = Order.id x :: (Order.id <$> rows)).
  rewrite IH. f_equal.
  destruct (decide (Order.id x = id)) as [E|E].
  - rewrite (replaceRow_hit _ _ _ E). congruence.
  - by rewrite (replaceRow_miss _ _ _ E).
Qed.

Lemma NoDup_fmap_filter {A B} (f : A -> B) (P : A -> Prop)
    `{!forall x, Decision (P x)} (l : list A) :
  NoDup (f <$> l) -> NoDup (f <$> filter P l).
Proof.
  induction l as [|x l IH]; [done|]. rewrite fmap_cons.
  intros [Hx Hl]%list.NoDup_cons. rewrite filter_cons.
  destruct (decide (P x)); [|by apply IH].
  rewrite fmap_cons. apply list.NoDup_cons. split; [|by apply IH].
  intros (y & E & Hy)%list_elem_of_fmap. apply Hx.
  apply list_elem_of_fmap. exists y. split; [done|].
  by apply list_elem_of_filter in Hy as [_ ?].
Qed.

Lemma NoDup_fmap_unique {A B} (f : A -> B) (l : list A) x y :
  NoDup (f <$> l) -> x ∈ l -> y ∈ l -> f x = f y -> x = y.
Proof.
  induction l as [|z l IH]; [by intros _ ?%elem_of_nil|].
  rewrite fmap_cons. intros [Hz Hl]%list.NoDup_cons.
  intros [->|Hx]%elem_of_cons [->|Hy]%elem_of_cons E; [done| | |by apply IH].
  - exfalso. apply Hz. rewrite E. apply list_elem_of_fmap. by exists y.
  - exfalso. apply Hz. rewrite <- E. apply list_elem_of_fmap. by exists x.
Qed.

Lemma wf_orders_not_next db :
  wellFormed db -> Forall (fun o => Order.id o ≠ cuid (nextId db)) (orders db).
Proof.
  intros Hwf. eapply list.Forall_impl; [apply (wf_orders _ Hwf)|].
  intros o Ha E. simpl in Ha. rewrite E in Ha.
  by apply allocated_not_next in Ha.
Qed.

Lemma wf_items_not_next db :
  wellFormed db ->
  Forall (fun it => OrderItem.orderId it ≠ cuid (nextId db)) (orderItems db).
Proof.
  intros Hwf. eapply list.Forall_impl; [apply (wf_items _ Hwf)|].
  intros it [_ Ha] E. rewrite E in Ha. by apply allocated_not_next in Ha.
Qed.

(** Items seen from an order after rows were appended for [oid]. *)
Lemma filter_appended_same oid start news (rows : list OrderItem.t) :
  Forall (fun it => OrderItem.orderId it ≠ oid) rows ->
  filter (fun it => OrderItem.orderId it = oid)
    (rows ++ createItems oid start news)%list
  = createItems oid start news.
Proof.
  intros H. rewrite filter_app, (filter_none_same _ _ H). simpl.
  apply filter_all_same, createItems_orderId.
Qed.

Lemma filter_appended_other oid other start news (rows : list OrderItem.t) :
  other ≠ oid ->
  filter (fun it => OrderItem.orderId it = other)
    (rows ++ createItems oid start news)%list
  = filter (fun it => OrderItem.orderId it = other) rows.
Proof.
  intros Hne. rewrite filter_app.
  rewrite (filter_none_same other (createItems oid start news)).
  - by rewrite app_nil_r.
  - eapply list.Forall_impl; [apply createItems_orderId|].
    simpl. intros it -> E. by apply Hne.
Qed.

Lemma orderConsistent_same_items db db' o :
  itemsOf (Order.id o) db' = itemsOf (Order.id o) db ->
  orderConsistent db o -> orderConsistent db' o.
Proof. unfold orderConsistent. by intros ->. Qed.

Lemma new_rows_consistent oid start items db o :
  Order.id o = oid ->
  Order.totalAmount o = OrderService.totalOf items ->
  itemsOf oid db
  = createItems oid start (map OrderService.withTotalPrice items) ->
  orderConsistent db o.
Proof.
  intros Hid Htot Hitems. unfold orderConsistent.
  rewrite Hid, Hitems, Htot, sum_createItems.
  split; [done|apply createItems_rows].
Qed.

(** ** Creation keeps the store well formed and consistent *)

Section Creation.
Variables (fullYear : N) (data : CreateOrderInput.t).
Variables (db db' : Store) (out : OrderWithRelations.t).
Hypothesis Hwf : wellFormed db.
Hypothesis Hcall : OrderService.createOrder fullYear data db = (db', Ok out).

Let id := cuid (nextId db).
Let items := CreateOrderInput.items data.
Let rows :=
  createItems id (N.succ (nextId db)) (map OrderService.withTotalPrice items).

Lemma created_items : itemsOf id db' = rows.
Proof.
  destruct (createOrder_inv _ _ _ _ _ Hcall) as (_ & -> & _).
  unfold itemsOf; simpl.
  apply filter_appended_same, wf_items_not_next, Hwf.
Qed.

Lemma created_view :
  OrderWithRelations.items out = rows
  /\ Order.id (OrderWithRelations.order out) = id
  /\ Order.totalAmount (OrderWithRelations.order out)
     = OrderService.totalOf items
  /\ orders db' = (orders db ++ [OrderWithRelations.order out])%list.
Proof.
  pose proof created_items as Hitems.
  destruct (createOrder_inv _ _ _ _ _ Hcall) as (_ & Hdb & ->).
  simpl. split; [exact Hitems|]. by rewrite Hdb.
Qed.

Lemma created_old_items other :
  other ≠ id -> itemsOf other db' = itemsOf other db.
Proof.
  intros Hne. destruct (createOrder_inv _ _ _ _ _ Hcall) as (_ & -> & _).
  unfold itemsOf; simpl. by apply filter_appended_other.
Qed.

Lemma created_nextId :
  nextId db' = (N.succ (nextId db) + N.of_nat (length items))%N.
Proof.
  by destruct (createOrder_inv _ _ _ _ _ Hcall) as (_ & -> & _).
Qed.

Lemma created_wellFormed : wellFormed db'.
Proof.
  pose proof created_nextId as Hnext.
  assert (Hmono : forall s, allocated db s -> allocated db' s).
  { intros s. apply allocated_mono. lia. }
  assert (Hid : allocated db' id).
  { exists (nextId db). split; [lia|done]. }
  assert (Hrows : Forall (fun it => allocated db' (OrderItem.id it)
                                    /\ allocated db' (OrderItem.orderId it))
                    rows).
  { apply list.Forall_forall. intros it Hin. split.
    - destruct (createItems_ids _ _ _ _ Hin) as (k & Hk & ->).
      rewrite length_map in Hk. exists k. split; [lia|done].
    - pose proof (createItems_orderId id (N.succ (nextId db))
                    (map OrderService.withTotalPrice items)) as Ho.
      rewrite list.Forall_forall in Ho. by rewrite (Ho it Hin). }
  destruct (createOrder_inv _ _ _ _ _ Hcall) as (_ & Hdb & _).
  fold id items rows in Hdb. destruct Hwf as [Ho Hi Hno Hni].
  rewrite Hdb in Hmono, Hid, Hrows |- *. constructor; simpl.
  - apply Forall_app. split; [|by constructor].
    eapply list.Forall_impl; [exact Ho|]. intros o. apply Hmono.
  - apply Forall_app. split; [|exact Hrows].
    eapply list.Forall_impl; [exact Hi|].
    intros it [? ?]. split; by apply Hmono.
  - rewrite fmap_app. apply NoDup_app. split; [exact Hno|]. split.
    + intros s (o & -> & Hin)%list_elem_of_fmap. simpl.
      intros E%list_elem_of_singleton.
      rewrite list.Forall_forall in Ho.
      pose proof (Ho o Hin) as Ha. simpl in Ha. rewrite E in Ha.
      exact (allocated_not_next db Ha).
    + apply NoDup_singleton.
  - rewrite fmap_app. apply NoDup_app. split; [exact Hni|]. split.
    + intros s (it & -> & Hin)%list_elem_of_fmap.
      intros (new & E & Hnew)%list_elem_of_fmap.
      rewrite list.Forall_forall in Hi.
      destruct (Hi it Hin) as [(k & Hk & Ek) _].
      destruct (createItems_ids _ _ _ _ Hnew) as (k' & Hk' & Ek').
      rewrite Ek, Ek' in E. apply cuid_inj in E. lia.
    + apply createItems_NoDup.
Qed.

Lemma created_consistent : consistentStore db -> consistentStore db'.
Proof.
  intros Hcons. pose proof created_view as (_ & Hoid & Htot & Horders).
  unfold consistentStore. rewrite Horders. apply Forall_app. split.
  - pose proof (wf_orders_not_next db Hwf) as Hfresh.
    unfold consistentStore in Hcons.
    rewrite list.Forall_forall in Hfresh, Hcons |- *. intros o Hin.
    apply (orderConsistent_same_items db); [|by apply Hcons].
    apply created_old_items. by apply Hfresh.
  - constructor; [|constructor].
    eapply new_rows_consistent; [exact Hoid|exact Htot|].
    apply created_items.
Qed.
End Creation.

(** ** Replacing the items of an order *)

Section Replacement.
Variables (id : string) (data : UpdateOrderInput.t).
Variable items : list OrderItemInput.t.
Variables (db db' : Store) (out : OrderWithRelations.t).
Hypothesis Hitems : UpdateOrderInput.items data = Some items.
Hypothesis Hcall : OrderService.updateOrder id data db = (db', Ok out).

Let rows :=
  createItems id (nextId db) (map OrderService.withTotalPrice items).

Lemma replaced_items : itemsOf id db' = rows.
Proof.
  destruct (updateOrder_items_inv _ _ _ _ _ _ Hitems Hcall)
    as (o & _ & -> & _).
  unfold itemsOf; simpl. rewrite filter_app, filter_after_removal_same.
  simpl. apply filter_all_same, createItems_orderId.
Qed.

Lemma replaced_other_items other :
  other ≠ id -> itemsOf other db' = itemsOf other db.
Proof.
  intros Hne.
  destruct (updateOrder_items_inv _ _ _ _ _ _ Hitems Hcall)
    as (o & _ & -> & _).
  unfold itemsOf; simpl. rewrite filter_appended_other by done.
  by apply filter_after_removal_other.
Qed.

Lemma replaced_view :
  exists o,
    order_findRow id db = Some o
    /\ OrderWithRelations.items out = rows
    /\ OrderWithRelations.order out
       = Order.mk id (Order.orderNumber o)
           (default (Order.status o) (UpdateOrderInput.status data))
           (OrderService.totalOf items)
           (match UpdateOrderInput.notes data with
            | Some n => Some n
            | None => Order.notes o
            end)
           (Order.customerId o)
    /\ orders db'
       = map (replaceRow id (OrderWithRelations.order out)) (orders db)
    /\ order_findRow id db' = Some (OrderWithRelations.order out).
Proof.
  pose proof replaced_items as Hrows.
  destruct (updateOrder_items_inv _ _ _ _ _ _ Hitems Hcall)
    as (o & Ho & Hdb & ->).
  destruct (order_findRow_Some _ _ _ Ho) as [_ Hid].
  exists o. split; [exact Ho|]. simpl. rewrite Hid in *.
  split; [exact Hrows|]. split; [done|].
  rewrite Hdb. split; [done|].
  unfold order_findRow; simpl.
  by apply (find_replaceRow_same id _ (orders db) o).
Qed.

Lemma replaced_other_rows other :
  other ≠ id -> order_findUnique other db' = order_findUnique other db.
Proof.
  intros Hne. pose proof (replaced_other_items other Hne) as Hit.
  destruct replaced_view as (o & Ho & _ & Hrow & Horders & _).
  assert (Hc : customers db' = customers db).
  { by destruct (updateOrder_items_inv _ _ _ _ _ _ Hitems Hcall)
      as (? & _ & -> & _). }
  assert (Hfind : order_findRow other db' = order_findRow other db).
  { unfold order_findRow. rewrite Horders.
    apply find_replaceRow_other; [by rewrite Hrow|done]. }
  unfold order_findUnique. rewrite Hfind.
  destruct (order_findRow other db) as [x|] eqn:Hx; [|done]. simpl.
  destruct (order_findRow_Some _ _ _ Hx) as [_ Hxid].
  unfold include, customer_findUnique. by rewrite Hc, Hxid, Hit.
Qed.

Lemma replaced_nextId :
  nextId db' = (nextId db + N.of_nat (length items))%N.
Proof.
  by destruct (updateOrder_items_inv _ _ _ _ _ _ Hitems Hcall)
    as (? & _ & -> & _).
Qed.

Lemma replaced_consistent : consistentStore db -> consistentStore db'.
Proof.
  intros Hcons. destruct replaced_view as (o & _ & _ & Hrow & Horders & _).
  unfold consistentStore in *. rewrite Horders.
  rewrite list.Forall_forall in Hcons |- *.
  intros x (y & -> & Hy)%list_elem_of_fmap.
  destruct (decide (Order.id y = id)) as [E|E].
  - rewrite (replaceRow_hit _ _ _ E).
    eapply new_rows_consistent; [| |apply replaced_items].
    + by rewrite Hrow.
    + by rewrite Hrow.
  - rewrite (replaceRow_miss _ _ _ E).
    apply (orderConsistent_same_items db); [|by apply Hcons].
    by apply replaced_other_items.
Qed.

Lemma replaced_wellFormed : wellFormed db -> wellFormed db'.
Proof.
  intros [Ho Hi Hno Hni]. pose proof replaced_nextId as Hnext.
  assert (Hmono : forall s, allocated db s -> allocated db' s).
  { intros s. apply allocated_mono. lia. }
  destruct replaced_view as (o & Hfind & _ & Hrow & Horders & _).
  destruct (order_findRow_Some _ _ _ Hfind) as [Hin Hoid].
  assert (Hida : allocated db' id).
  { rewrite list.Forall_forall in Ho. rewrite <- Hoid.
    by apply Hmono, Ho. }
  assert (Hids : Order.id <$> orders db' = Order.id <$> orders db).
  { rewrite Horders. apply replaceRow_ids. by rewrite Hrow. }
  destruct (updateOrder_items_inv _ _ _ _ _ _ Hitems Hcall)
    as (o' & _ & Hdb & _).
  constructor.
  - apply list.Forall_forall. intros x Hx.
    assert (Hxi : Order.id x ∈ Order.id <$> orders db).
    { rewrite <- Hids. apply list_elem_of_fmap. by exists x. }
    apply list_elem_of_fmap in Hxi as (y & -> & Hy).
    rewrite list.Forall_forall in Ho. by apply Hmono, Ho.
  - rewrite Hdb; simpl. rewrite <- Hdb. apply Forall_app. split.
    + apply list.Forall_forall. intros it [_ Hit]%list_elem_of_filter.
      rewrite list.Forall_forall in Hi. destruct (Hi it Hit).
      split; by apply Hmono.
    + apply list.Forall_forall. intros it Hit. split.
      * destruct (createItems_ids _ _ _ _ Hit) as (k & Hk & ->).
        rewrite length_map in Hk. exists k. split; [lia|done].
      * pose proof (createItems_orderId id (nextId db)
                      (map OrderService.withTotalPrice items)) as Hall.
        rewrite list.Forall_forall in Hall. by rewrite (Hall it Hit).
  - by rewrite Hids.
  - rewrite Hdb; simpl. rewrite fmap_app. apply NoDup_app.
    split; [by apply NoDup_fmap_filter|]. split.
    + intros s (it & -> & [_ Hin']%list_elem_of_filter)%list_elem_of_fmap.
      intros (new & E & Hnew)%list_elem_of_fmap.
      rewrite list.Forall_forall in Hi.
      destruct (Hi it Hin') as [(k & Hk & Ek) _].
      destruct (createItems_ids _ _ _ _ Hnew) as (k' & Hk' & Ek').
      rewrite Ek, Ek' in E. apply cuid_inj in E. lia.
    + apply createItems_NoDup.
Qed.

(** None of the rows the order had is left in the table. *)
Lemma replaced_old_gone it :
  wellFormed db -> it ∈ itemsOf id db ->
  OrderItem.id it ∉ (OrderItem.id <$> orderItems db').
Proof.
  intros [_ Hi _ Hni] [Hoid Hin]%list_elem_of_filter.
  destruct (updateOrder_items_inv _ _ _ _ _ _ Hitems Hcall)
    as (o & _ & -> & _).
  simpl. rewrite fmap_app. intros [Hold|Hnew]%elem_of_app.
  - apply list_elem_of_fmap in Hold
      as (other & E & [Hother Hin']%list_elem_of_filter).
    assert (it = other); [|congruence].
    by apply (NoDup_fmap_unique OrderItem.id (orderItems db)).
  - apply list_elem_of_fmap in Hnew as (new & E & Hnew).
    rewrite list.Forall_forall in Hi.
    destruct (Hi it Hin) as [(k & Hk & Ek) _].
    destruct (createItems_ids _ _ _ _ Hnew) as (k' & Hk' & Ek').
    rewrite Ek, Ek' in E. apply cuid_inj in E. lia.
Qed.
End Replacement.

(** ** Updating without items, and deleting *)

Section PlainUpdate.
Variables (id : string) (data : UpdateOrderInput.t).
Variables (db db' : Store) (out : OrderWithRelations.t).
Hypothesis Hitems : UpdateOrderInput.items data = None.
Hypothesis Hcall : OrderService.updateOrder id data db = (db', Ok out).

Lemma plain_view :
  exists o,
    order_findRow id db = Some o
    /\ OrderWithRelations.order out
       = Order.mk id (Order.orderNumber o)
           (default (Order.status o) (UpdateOrderInput.status data))
           (Order.totalAmount o)
           (match UpdateOrderInput.notes data with
            | Some n => Some n
            | None => Order.notes o
            end)
           (Order.customerId o)
    /\ OrderWithRelations.items out = itemsOf id db
    /\ orders db'
       = map (replaceRow id (OrderWithRelations.order out)) (orders db)
    /\ orderItems db' = orderItems db
    /\ customers db' = customers db
    /\ nextId db' = nextId db
    /\ order_findRow id db' = Some (OrderWithRelations.order out).
Proof.
  destruct (updateOrder_plain_inv _ _ _ _ _ Hitems Hcall)
    as (o & Ho & Hdb & ->).
  destruct (order_findRow_Some _ _ _ Ho) as [_ Hid].
  exists o. split; [exact Ho|]. simpl. rewrite Hid in *.
  split; [done|]. rewrite Hdb. unfold itemsOf; simpl.
  repeat (split; [done|]).
  unfold order_findRow; simpl.
  by apply (find_replaceRow_same id _ (orders db) o).
Qed.

Lemma plain_other_rows other :
  other ≠ id -> order_findUnique other db' = order_findUnique other db.
Proof.
  intros Hne.
  destruct plain_view as (o & _ & Hrow & _ & Horders & Hi & Hc & _).
  assert (Hfind : order_findRow other db' = order_findRow other db).
  { unfold order_findRow. rewrite Horders.
    apply find_replaceRow_other; [by rewrite Hrow|done]. }
  unfold order_findUnique. rewrite Hfind.
  destruct (order_findRow other db) as [x|]; [|done]. simpl.
  unfold include, customer_findUnique, itemsOf. by rewrite Hc, Hi.
Qed.

Lemma plain_consistent : consistentStore db -> consistentStore db'.
Proof.
  intros Hcons.
  destruct plain_view as (o & Ho & Hrow & _ & Horders & Hi & _).
  destruct (order_findRow_Some _ _ _ Ho) as [Hin Hoid].
  assert (Hsame : forall s, itemsOf s db' = itemsOf s db).
  { intros s. unfold itemsOf. by rewrite Hi. }
  unfold consistentStore in *. rewrite Horders.
  rewrite list.Forall_forall in Hcons |- *.
  intros x (y & -> & Hy)%list_elem_of_fmap.
  destruct (decide (Order.id y = id)) as [E|E].
  - rewrite (replaceRow_hit _ _ _ E).
    pose proof (Hcons o Hin) as Hc. unfold orderConsistent in Hc |- *.
    rewrite Hsame, Hrow. simpl. by rewrite <- Hoid.
  - rewrite (replaceRow_miss _ _ _ E).
    apply (orderConsistent_same_items db); [apply Hsame|by apply Hcons].
Qed.

Lemma plain_wellFormed : wellFormed db -> wellFormed db'.
Proof.
  intros [Ho Hi Hno Hni].
  destruct plain_view as (o & _ & Hrow & _ & Horders & Hitm & _ & Hn & _).
  assert (Hmono : forall s, allocated db s -> allocated db' s).
  { intros s. apply allocated_mono. lia. }
  assert (Hids : Order.id <$> orders db' = Order.id <$> orders db).
  { rewrite Horders. apply replaceRow_ids. by rewrite Hrow. }
  constructor.
  - apply list.Forall_forall. intros x Hx.
    assert (Hxi : Order.id x ∈ Order.id <$> orders db).
    { rewrite <- Hids. apply list_elem_of_fmap. by exists x. }
    apply list_elem_of_fmap in Hxi as (y & -> & Hy).
    rewrite list.Forall_forall in Ho. by apply Hmono, Ho.
  - rewrite Hitm. eapply list.Forall_impl; [exact Hi|].
    intros it [? ?]. split; by apply Hmono.
  - by rewrite Hids.
  - by rewrite Hitm.
Qed.
End PlainUpdate.

Section Deletion.
Variables (id : string) (db db' : Store).
Hypothesis Hcall : OrderService.deleteOrder id db = (db', Ok tt).

Lemma deleted_consistent : consistentStore db -> consistentStore db'.
Proof.
  intros Hcons. destruct (deleteOrder_inv _ _ _ Hcall) as [_ ->].
  unfold consistentStore in *; simpl.
  rewrite list.Forall_forall in Hcons |- *.
  intros o [Hne Hin]%list_elem_of_filter.
  apply (orderConsistent_same_items db); [|by apply Hcons].
  unfold itemsOf; simpl. by apply filter_after_removal_other.
Qed.

Lemma deleted_wellFormed : wellFormed db -> wellFormed db'.
Proof.
  intros [Ho Hi Hno Hni]. destruct (deleteOrder_inv _ _ _ Hcall) as [_ ->].
  constructor; simpl.
  - apply list.Forall_forall. intros o [_ Hin]%list_elem_of_filter.
    rewrite list.Forall_forall in Ho. destruct (Ho o Hin) as (k & ? & ?).
    by exists k.
  - apply list.Forall_forall. intros it [_ Hin]%list_elem_of_filter.
    rewrite list.Forall_forall in Hi.
    destruct (Hi it Hin) as [(k & ? & ?) (k' & ? & ?)].
    split; [by exists k|by exists k'].
  - by apply NoDup_fmap_filter.
  - by apply NoDup_fmap_filter.
Qed.
End Deletion.

(** ** The invariant along any run of the service *)

Lemma step_invariant db db' :
  serviceStep db db' ->
  wellFormed db /\ consistentStore db ->
  wellFormed db' /\ consistentStore db'.
Proof.
  intros Hstep [Hwf Hcons]. destruct Hstep as [y d db' out H|i d db' out H|i db' H].
  - split.
    + by apply (created_wellFormed y d db db' out).
    + by apply (created_consistent y d db db' out).
  - destruct (UpdateOrderInput.items d) as [items|] eqn:Hitems.
    + split.
      * by apply (replaced_wellFormed i d items db db' out).
      * by apply (replaced_consistent i d items db db' out).
    + split.
      * by apply (plain_wellFormed i d db db' out).
      * by apply (plain_consistent i d db db' out).
  - split.
    + by apply (deleted_wellFormed i db db').
    + by apply (deleted_consistent i db db').
Qed.

Lemma run_invariant db db' :
  serviceRun db db' ->
  wellFormed db /\ consistentStore db ->
  wellFormed db' /\ consistentStore db'.
Proof.
  unfold serviceRun. induction 1 as [|mid db' _ IH Hstep]; [done|].
  intros H. by apply (step_invariant mid db'), IH.
Qed.

Lemma seeded_wellFormed : wellFormed seeded.
Proof. constructor; simpl; constructor. Qed.

Lemma seeded_consistent : consistentStore seeded.
Proof. constructor. Qed.

Lemma seeded_runs db : serviceRun seeded db -> wellFormed db.
Proof.
  intros H. apply (run_invariant seeded db H).
  split; [apply seeded_wellFormed|apply seeded_consistent].
Qed.

Lemma oneOrder_run : serviceRun seeded oneOrder.
Proof.
  eapply run_more; [apply run_here|].
  eapply (step_create seeded 2024 laptopAndMice). reflexivity.
Qed.

Lemma twoOrders_run : serviceRun seeded twoOrders.
Proof.
  eapply run_more; [apply oneOrder_run|].
  eapply (step_create oneOrder 2024 laptopAndMice). reflexivity.
Qed.

(** ** Totals *)

(** C1. In a store whose totals agree with its items, creating an order
    from any input gives an order whose totalAmount is the sum, item after
    item, of quantity times unitPrice; the rows persisted for it are the
    input's items in order, each with totalPrice = quantity times unitPrice,
    and the order's totalAmount is the sum of those totalPrice. The same
    holds after updateOrder with a list of items. Neither statement is
    empty: the creation does succeed when the customer is there and no
    order carries the number it generates (what the store does with a
    number already in use is the schema's matter), and the update does
    succeed when the order is there. And after any run of createOrder,
    updateOrder and deleteOrder calls every order's totalAmount is still
    the sum of its items' totalPrice, each of which is quantity times
    unitPrice. Sums and products are those of the code: binary64, summed
    from 0 in item order. *)
Theorem totals_follow_items (db : Store) :
  wellFormed db -> consistentStore db ->
  let sumOfLines (items : list OrderItemInput.t) :=
    fold_left
      (fun sum item =>
         (sum + OrderItemInput.quantity item * OrderItemInput.unitPrice item)
           %float)
      items 0%float in
  let agrees (db' : Store) (out : OrderWithRelations.t)
      (items : list OrderItemInput.t) :=
    let order := OrderWithRelations.order out in
    let rows := OrderWithRelations.items out in
    Order.totalAmount order = sumOfLines items
    /\ order_findUnique (Order.id order) db' = Some out
    /\ itemsOf (Order.id order) db' = rows
    /\ map inputOf rows = items
    /\ Forall lineConsistent rows
    /\ Order.totalAmount order = sumTotalPrice rows in
  (forall fullYear data,
     is_Some (customer_findUnique (CreateOrderInput.customerId data) db) ->
     Forall
       (fun o => Order.orderNumber o
                 ≠ OrderService.orderNumber fullYear (order_count db))
       (orders db) ->
     exists db' out,
       OrderService.createOrder fullYear data db = (db', Ok out)
       /\ agrees db' out (CreateOrderInput.items data))
  /\ (forall fullYear data db' out,
        OrderService.createOrder fullYear data db = (db', Ok out) ->
        agrees db' out (CreateOrderInput.items data))
  /\ (forall id data items,
        UpdateOrderInput.items data = Some items ->
        is_Some (order_findRow id db) ->
        exists db' out,
          OrderService.updateOrder id data db = (db', Ok out)
          /\ Order.id (OrderWithRelations.order out) = id
          /\ agrees db' out items)
  /\ (forall id data items db' out,
        UpdateOrderInput.items data = Some items ->
        OrderService.updateOrder id data db = (db', Ok out) ->
        agrees db' out items)
  /\ (forall db', serviceRun db db' -> consistentStore db').
Proof.
  intros Hwf Hcons sumOfLines agrees.
  assert (Hcreated : forall fullYear data db' out,
            OrderService.createOrder fullYear data db = (db', Ok out) ->
            agrees db' out (CreateOrderInput.items data)).
  { intros y d db' out Hcall. unfold agrees.
    destruct (created_view y d db db' out Hwf Hcall)
      as (Hrows & Hid & Htot & Ho).
    pose proof (created_items y d db db' out Hwf Hcall) as Hitems.
    destruct (createOrder_inv _ _ _ _ _ Hcall) as (_ & Hdb & Hout).
    rewrite Hid, Hitems, Hrows, Htot.
    split; [done|]. split.
    { unfold order_findUnique, order_findRow.
      rewrite Ho, (find_appended _ _ _ (wf_orders_not_next db Hwf) Hid).
      simpl. f_equal. by rewrite Hout. }
    split; [done|].
    destruct (createItems_rows (cuid (nextId db)) (N.succ (nextId db))
                (CreateOrderInput.items d)) as [Hin Hline].
    split; [exact Hin|]. split; [exact Hline|].
    symmetry. apply sum_createItems. }
  assert (Hupdated : forall id data items db' out,
            UpdateOrderInput.items data = Some items ->
            OrderService.updateOrder id data db = (db', Ok out) ->
            Order.id (OrderWithRelations.order out) = id
            /\ agrees db' out items).
  { intros i d items db' out Hitems Hcall. unfold agrees.
    destruct (replaced_view i d items db db' out Hitems Hcall)
      as (o & _ & Hrows & Hrow & _ & Hfind).
    pose proof (replaced_items i d items db db' out Hitems Hcall) as Hit.
    assert (Hid : Order.id (OrderWithRelations.order out) = i)
      by (by rewrite Hrow).
    split; [exact Hid|]. rewrite Hid, Hit, Hrows.
    split; [by rewrite Hrow|]. split.
    { unfold order_findUnique. rewrite Hfind. simpl. f_equal.
      destruct (updateOrder_items_inv _ _ _ _ _ _ Hitems Hcall)
        as (o' & _ & _ & Hout).
      by rewrite Hout. }
    split; [done|].
    destruct (createItems_rows i (nextId db) items) as [Hin Hline].
    split; [exact Hin|]. split; [exact Hline|].
    rewrite Hrow. simpl. symmetry. apply sum_createItems. }
  split; [|split; [exact Hcreated|split; [|split]]].
  - intros y d Hcustomer _.
    destruct (createOrder_succeeds y d db Hcustomer) as (db' & out & Hcall).
    exists db', out. split; [exact Hcall|]. by apply (Hcreated y).
  - intros i d items Hitems Hsome.
    destruct (updateOrder_succeeds i d db Hsome) as (db' & out & Hcall).
    exists db', out. split; [exact Hcall|]. by apply (Hupdated i d).
  - intros i d items db' out Hitems Hcall.
    by destruct (Hupdated i d items db' out Hitems Hcall).
  - intros db' Hrun. by apply (run_invariant db db' Hrun).
Qed.

Lemma totals_follow_items_witness :
  (exists db' out,
     OrderService.createOrder 2024 laptopAndMice seeded = (db', Ok out)
     /\ Order.totalAmount (OrderWithRelations.order out)
        = (0 + 1 * 999.99 + 2 * 29.99)%float
     /\ Order.totalAmount (OrderWithRelations.order out)
        = sumTotalPrice (OrderWithRelations.items out))
  /\ (exists db' out,
        OrderService.updateOrder "c2" oneCable oneOrder = (db', Ok out)
        /\ Order.totalAmount (OrderWithRelations.order out)
           = (0 + 3 * 0.1)%float
        /\ map inputOf (itemsOf "c2" db')
           = [OrderItemInput.mk "Cable" 3%float 0.1%float]
        /\ Order.totalAmount (OrderWithRelations.order out)
           = sumTotalPrice (itemsOf "c2" db'))
  /\ consistentStore twoOrders.
Proof.
  destruct (totals_follow_items seeded seeded_wellFormed seeded_consistent)
    as (Hcreate & _ & _ & _ & Hrun).
  destruct (run_invariant seeded oneOrder oneOrder_run
              (conj seeded_wellFormed seeded_consistent)) as [Hwf1 Hcons1].
  destruct (totals_follow_items oneOrder Hwf1 Hcons1)
    as (_ & _ & Hupdate & _).
  split; [|split].
  - destruct (Hcreate 2024%N laptopAndMice (ex_intro _ _ eq_refl)
                (Forall_nil_2 _))
      as (db' & out & Hcall & Htot & _ & _ & _ & _ & Hsum).
    by exists db', out.
  - destruct (Hupdate "c2" oneCable
                [OrderItemInput.mk "Cable" 3%float 0.1%float] eq_refl
                (ex_intro _ _ eq_refl))
      as (db' & out & Hcall & Hid & Htot & _ & Hrows & Hin & _ & Hsum).
    rewrite Hid in Hrows. exists db', out.
    split; [exact Hcall|]. split; [exact Htot|].
    split; [by rewrite Hrows|by rewrite Hrows].
  - apply Hrun, twoOrders_run.
Defined.

(** ** Updating without items *)

(** C4. An updateOrder call whose input has no items leaves the item table
    as it was. When it succeeds (the order exists), the order keeps its
    identifier, number, customer and totalAmount, and its items are the
    ones it had; its status is the input's when the input has one and the
    old one otherwise, and so for its notes; every other order reads as
    before. When it throws, nothing has changed. *)
Theorem update_without_items_frame
    (id : string) (data : UpdateOrderInput.t) (db : Store) :
  UpdateOrderInput.items data = None ->
  exists db' res,
    OrderService.updateOrder id data db = (db', res)
    /\ orderItems db' = orderItems db
    /\ (is_Some (order_findRow id db) <-> exists out, res = Ok out)
    /\ match res with
       | Ok out =>
           let after := OrderWithRelations.order out in
           exists before,
             order_findRow id db = Some before
             /\ order_findRow id db' = Some after
             /\ OrderWithRelations.items out = itemsOf id db
             /\ itemsOf id db' = itemsOf id db
             /\ Order.totalAmount after = Order.totalAmount before
             /\ Order.id after = Order.id before
             /\ Order.orderNumber after = Order.orderNumber before
             /\ Order.customerId after = Order.customerId before
             /\ Order.status after
                = default (Order.status before) (UpdateOrderInput.status data)
             /\ Order.notes after
                = match UpdateOrderInput.notes data with
                  | Some n => Some n
                  | None => Order.notes before
                  end
             /\ (forall other, other ≠ id ->
                   order_findUnique other db' = order_findUnique other db)
       | Throw message => db' = db /\ message = "Order not found"
       end.
Proof.
  intros Hitems.
  destruct (OrderService.updateOrder id data db) as [db' res] eqn:Hcall.
  exists db', res. split; [done|]. destruct res as [out|message].
  - destruct (plain_view id data db db' out Hitems Hcall)
      as (o & Hfind & Hrow & Hout & _ & Hi & _ & _ & Hfind').
    destruct (order_findRow_Some _ _ _ Hfind) as [_ Hoid].
    split; [exact Hi|]. split.
    { split; [by eexists|]. intros _. by rewrite Hfind. }
    exists o. split; [exact Hfind|]. split; [exact Hfind'|].
    split; [exact Hout|]. split; [unfold itemsOf; by rewrite Hi|].
    rewrite Hrow. simpl. repeat (split; [done|]).
    intros other. by apply (plain_other_rows id data db db' out).
  - destruct (updateOrder_fails _ _ _ _ _ Hcall) as (-> & -> & Hnone).
    split; [done|]. split; [|done]. rewrite Hnone. split.
    + by intros [? ?].
    + by intros [? ?].
Qed.

Lemma update_without_items_frame_witness :
  exists db' out,
    OrderService.updateOrder "c2" shipIt oneOrder = (db', Ok out)
    /\ orderItems db' = orderItems oneOrder
    /\ Order.totalAmount (OrderWithRelations.order out)
       = (0 + 1 * 999.99 + 2 * 29.99)%float
    /\ Order.status (OrderWithRelations.order out) = SHIPPED.
Proof.
  destruct (update_without_items_frame "c2" shipIt oneOrder eq_refl)
    as (db' & res & Hcall & Hi & [Hsome _] & Hres).
  destruct (Hsome (ex_intro _ _ eq_refl)) as [out ->].
  destruct Hres as (before & Hb & _ & _ & _ & Htot & _ & _ & _ & Hst & _).
  injection Hb as <-.
  exists db', out. split; [exact Hcall|]. split; [exact Hi|].
  split; [exact Htot|exact Hst].
Defined.

(** ** Decimal notation *)

Lemma string_app_cons a s t : String a s +:+ t = String a (s +:+ t).
Proof. reflexivity. Qed.

Lemma string_app_nil_r s : s +:+ "" = s.
Proof.
  induction s as [|a s IH]; [done|]. by rewrite string_app_cons, IH.
Qed.

Lemma string_app_assoc s t u : (s +:+ t) +:+ u = s +:+ (t +:+ u).
Proof.
  induction s as [|a s IH]; [done|]. by rewrite !string_app_cons, IH.
Qed.

Lemma string_app_length s t :
  String.length (s +:+ t) = (String.length s + String.length t)%nat.
Proof.
  induction s as [|a s IH]; [done|]. rewrite string_app_cons. simpl.
  by rewrite IH.
Qed.

Lemma allDigits_app s t :
  allDigits (s +:+ t) = allDigits s && allDigits t.
Proof.
  induction s as [|a s IH]; [done|]. rewrite string_app_cons. simpl.
  by rewrite IH, andb_assoc.
Qed.

Lemma decimalValueFrom_app acc s t :
  decimalValueFrom acc (s +:+ t) = decimalValueFrom (decimalValueFrom acc s) t.
Proof.
  revert acc. induction s as [|a s IH]; intros acc; [done|].
  rewrite string_app_cons. simpl. apply IH.
Qed.

Lemma digit_char d :
  (d < 10)%N ->
  Js.isDigit (pretty_N_char d) = true
  /\ (N_of_ascii (pretty_N_char d) - 48 = d)%N.
Proof.
  intros Hd.
  assert (d = 0 \/ d = 1 \/ d = 2 \/ d = 3 \/ d = 4 \/ d = 5 \/ d = 6
          \/ d = 7 \/ d = 8 \/ d = 9)%N as H by lia.
  repeat (destruct H as [->|H]; [by vm_compute|]). subst d. by vm_compute.
Qed.

(** stdpp's printer produces the decimal notation. *)
Lemma pretty_go_decimal x :
  (0 < x)%N ->
  forall s, exists ds, decimalOf x ds /\ pretty_N_go x s = ds +:+ s.
Proof.
  induction (N.lt_wf_0 x) as [x _ IH]. intros Hx s.
  rewrite pretty_N_go_step by done.
  assert (Hd : (x `mod` 10 < 10)%N) by (apply N.mod_lt; lia).
  destruct (decide (x < 10)%N) as [Hsmall|Hbig].
  - rewrite N.div_small by done. rewrite pretty_N_go_0.
    rewrite N.mod_small by done.
    exists (String (pretty_N_char x) ""). split; [|done].
    apply decimal_digit. lia.
  - assert (Hq : (0 < x `div` 10)%N) by (apply N.div_str_pos; lia).
    destruct (IH (x `div` 10)%N (N.div_lt x 10 Hx eq_refl) Hq
                (String (pretty_N_char (x `mod` 10)) s)) as (ds & Hds & ->).
    exists (ds +:+ String (pretty_N_char (x `mod` 10)) "").
    split; [|by rewrite string_app_assoc].
    rewrite (N.div_mod x 10) at 1 by done. by apply decimal_more.
Qed.

Lemma pretty_decimal x : (0 < x)%N -> decimalOf x (pretty x).
Proof.
  intros Hx. unfold pretty, pretty_N.
  destruct (decide (x = 0%N)) as [->|_]; [lia|].
  destruct (pretty_go_decimal x Hx "") as (ds & Hds & ->).
  by rewrite string_app_nil_r.
Qed.

Lemma decimalOf_digits x ds : decimalOf x ds -> allDigits ds = true.
Proof.
  induction 1 as [d Hd|x d ds _ IH Hd]; simpl.
  - destruct (digit_char d) as [-> _]; [lia|done].
  - rewrite allDigits_app, IH. simpl.
    by destruct (digit_char d Hd) as [-> _].
Qed.

Lemma decimalOf_value x ds : decimalOf x ds -> decimalValue ds = x.
Proof.
  unfold decimalValue. induction 1 as [d Hd|x d ds _ IH Hd]; simpl.
  - destruct (digit_char d) as [_ ->]; [lia|done].
  - rewrite decimalValueFrom_app, IH. simpl.
    destruct (digit_char d Hd) as [_ ->]. lia.
Qed.

Lemma decimalOf_bounds x ds :
  decimalOf x ds ->
  (1 <= String.length ds)%nat
  /\ (10 ^ N.of_nat (String.length ds - 1) <= x
      < 10 ^ N.of_nat (String.length ds))%N.
Proof.
  induction 1 as [d Hd|x d ds _ [Hlen IH] Hd]; simpl.
  - split; [lia|]. simpl. lia.
  - rewrite string_app_length. simpl. split; [lia|].
    replace (String.length ds + 1 - 1)%nat
      with (S (String.length ds - 1)) by lia.
    replace (String.length ds + 1)%nat with (S (String.length ds)) by lia.
    rewrite !Nat2N.inj_succ, !N.pow_succ_r'. lia.
Qed.

Lemma pretty_digits (x : N) : allDigits (pretty x) = true.
Proof.
  destruct (decide (x = 0%N)) as [->|Hx]; [done|].
  apply (decimalOf_digits x), pretty_decimal. lia.
Qed.

Lemma pretty_value (x : N) : decimalValue (pretty x) = x.
Proof.
  destruct (decide (x = 0%N)) as [->|Hx]; [done|].
  apply decimalOf_value, pretty_decimal. lia.
Qed.

Lemma pretty_length_below (x : N) k :
  (0 < x < 10 ^ N.of_nat k)%N -> (String.length (pretty x) <= k)%nat.
Proof.
  intros [Hx Hk].
  destruct (decimalOf_bounds x _ (pretty_decimal x Hx)) as [Hlen [Hlo _]].
  destruct (decide (String.length (pretty x) <= k)%nat) as [|Hgt]; [done|].
  exfalso.
  assert (10 ^ N.of_nat k <= 10 ^ N.of_nat (String.length (pretty x) - 1))%N.
  { apply N.pow_le_mono_r; lia. }
  lia.
Qed.

Lemma pretty_length_four (x : N) :
  (1000 <= x <= 9999)%N -> String.length (pretty x) = 4%nat.
Proof.
  intros [Hlo Hhi].
  destruct (decimalOf_bounds x _ (pretty_decimal x ltac:(lia)))
    as [Hlen [Hl Hu]].
  destruct (decide (String.length (pretty x) <= 3)%nat) as [Hle|Hgt].
  { assert (10 ^ N.of_nat (String.length (pretty x)) <= 10 ^ 3)%N
      by (apply N.pow_le_mono_r; lia).
    change (10 ^ 3)%N with 1000%N in *. lia. }
  destruct (decide (5 <= String.length (pretty x))%nat) as [Hge|Hlt]; [|lia].
  assert (10 ^ 4 <= 10 ^ N.of_nat (String.length (pretty x) - 1))%N
    by (apply N.pow_le_mono_r; lia).
  change (10 ^ 4)%N with 10000%N in *. lia.
Qed.

(** ** Order numbers *)

Lemma zeros_succ k :
  Js.repeatString "0" (S k) = String "0" (Js.repeatString "0" k).
Proof. reflexivity. Qed.

Lemma zeros_length k : String.length (Js.repeatString "0" k) = k.
Proof.
  induction k as [|k IH]; [done|]. rewrite zeros_succ. simpl. by rewrite IH.
Qed.

Lemma zeros_digits k : allDigits (Js.repeatString "0" k) = true.
Proof. induction k as [|k IH]; [done|]. by rewrite zeros_succ. Qed.

Lemma zeros_value k s :
  decimalValue (Js.repeatString "0" k +:+ s) = decimalValue s.
Proof.
  induction k as [|k IH]; [done|]. by rewrite zeros_succ, string_app_cons.
Qed.

Lemma substring_whole s : substring 0 (String.length s) s = s.
Proof. induction s as [|a s IH]; simpl; [done|by rewrite IH]. Qed.

Lemma padStart_zeros n s :
  Js.padStart n "0" s = Js.repeatString "0" (n - String.length s) +:+ s.
Proof.
  unfold Js.padStart. simpl.
  destruct (Nat.leb_spec n (String.length s)) as [Hle|Hgt]; simpl.
  - by replace (n - String.length s)%nat with 0%nat by lia.
  - set (k := (n - String.length s)%nat).
    rewrite <- (zeros_length k) at 1. by rewrite substring_whole.
Qed.

(** The sequence part of an order number. *)
Lemma sequence_facts (n : N) :
  let sequence := Js.padStart 6 "0" (Js.toString n) in
  allDigits sequence = true
  /\ decimalValue sequence = n
  /\ (6 <= String.length sequence)%nat
  /\ ((0 < n < 1000000)%N -> String.length sequence = 6%nat).
Proof.
  simpl. rewrite padStart_zeros. unfold Js.toString.
  rewrite allDigits_app, zeros_digits, pretty_digits, zeros_value,
    pretty_value, string_app_length, zeros_length.
  repeat split; [lia|].
  intros Hn. pose proof (pretty_length_below n 6 Hn). lia.
Qed.

Lemma split_at_dash a a' r r' :
  allDigits a = true -> allDigits a' = true ->
  a +:+ String "-" r = a' +:+ String "-" r' -> a = a' /\ r = r'.
Proof.
  revert a'. induction a as [|c a IH]; intros [|c' a'] Ha Ha' E.
  - by injection E as ->.
  - rewrite string_app_cons in E. simpl in E. injection E as <- _.
    simpl in Ha'. discriminate Ha'.
  - rewrite string_app_cons in E. simpl in E. injection E as -> _.
    simpl in Ha. discriminate Ha.
  - rewrite !string_app_cons in E. injection E as -> E.
    simpl in Ha, Ha'. apply andb_true_iff in Ha as [_ Ha].
    apply andb_true_iff in Ha' as [_ Ha'].
    destruct (IH a' Ha Ha' E) as [-> ->]. done.
Qed.

Lemma orderNumber_inj y k y' k' :
  OrderService.orderNumber y k = OrderService.orderNumber y' k' ->
  y = y' /\ k = k'.
Proof.
  unfold OrderService.orderNumber. intros E.
  change ("ORD-" +:+ ?s) with (String "O" (String "R" (String "D" (String "-" s)))) in E.
  injection E as E.
  change ("-" +:+ ?s) with (String "-" s) in E.
  apply split_at_dash in E as [Ey Ek]; [|apply pretty_digits..].
  apply (inj pretty) in Ey.
  apply (f_equal decimalValue) in Ek.
  destruct (sequence_facts (k + 1)) as (_ & Hk & _).
  destruct (sequence_facts (k' + 1)) as (_ & Hk' & _).
  simpl in Hk, Hk'. rewrite Hk, Hk' in Ek. split; [done|lia].
Qed.

Lemma four_chars s :
  String.length s = 4%nat ->
  exists a b c d, s = String a (String b (String c (String d ""))).
Proof.
  destruct s as [|a [|b [|c [|d [|e s]]]]]; try discriminate.
  intros _. by exists a, b, c, d.
Qed.

Lemma six_chars s :
  String.length s = 6%nat ->
  exists a b c d e f,
    s = String a (String b (String c (String d (String e (String f ""))))).
Proof.
  destruct s as [|a [|b [|c [|d [|e [|f [|g s]]]]]]]; try discriminate.
  intros _. by exists a, b, c, d, e, f.
Qed.

Lemma pattern_of_parts year sequence :
  String.length year = 4%nat -> allDigits year = true ->
  String.length sequence = 6%nat -> allDigits sequence = true ->
  matchesOrderPattern ("ORD-" +:+ year +:+ "-" +:+ sequence) = true.
Proof.
  intros (a & b & c & d & ->)%four_chars Hy.
  intros (e & f & g & h & i & j & ->)%six_chars Hs.
  unfold matchesOrderPattern. simpl in *.
  rewrite Hy, Hs. reflexivity.
Qed.

Lemma updateOrder_rows id data db db' out :
  OrderService.updateOrder id data db = (db', Ok out) ->
  exists o,
    o ∈ orders db
    /\ Order.orderNumber (OrderWithRelations.order out) = Order.orderNumber o
    /\ Order.id (OrderWithRelations.order out) = id
    /\ orders db'
       = map (replaceRow id (OrderWithRelations.order out)) (orders db).
Proof.
  intros Hcall. destruct (UpdateOrderInput.items data) as [items|] eqn:Hitems.
  - destruct (replaced_view id data items db db' out Hitems Hcall)
      as (o & Ho & _ & Hrow & Horders & _).
    exists o. destruct (order_findRow_Some _ _ _ Ho) as [Hin _].
    split; [done|]. split; [by rewrite Hrow|].
    split; [by rewrite Hrow|exact Horders].
  - destruct (plain_view id data db db' out Hitems Hcall)
      as (o & Ho & Hrow & _ & Horders & _).
    exists o. destruct (order_findRow_Some _ _ _ Ho) as [Hin _].
    split; [done|]. split; [by rewrite Hrow|].
    split; [by rewrite Hrow|exact Horders].
Qed.

Lemma filter_nothing_out {A} (P : A -> Prop)
    `{!forall x, Decision (P x)} (l : list A) :
  length (filter P l) = 0%nat -> filter (fun x => ~ P x) l = l.
Proof.
  induction l as [|x l IH]; [done|]. rewrite !filter_cons.
  destruct (decide (P x)) as [Hp|Hp]; [discriminate|].
  intros Hl. destruct (decide (~ P x)) as [_|Hn]; [|done].
  by rewrite IH.
Qed.

Lemma createCustomer_orders clientMessage data db db' created :
  CustomerService.createCustomer clientMessage data db = (db', Ok created) ->
  orders db' = orders db.
Proof.
  unfold CustomerService.createCustomer, PrismaCustomers.customer_create.
  destruct (PrismaCustomers.emailTaken _ db); [discriminate|].
  by intros [= <- _].
Qed.

Lemma updateCustomer_orders id data db db' updated :
  CustomerService.updateCustomer id data db = (db', Ok updated) ->
  orders db' = orders db.
Proof.
  unfold CustomerService.updateCustomer, PrismaCustomers.customer_update.
  destruct (customer_findUnique id db) as [c|]; [|discriminate].
  destruct (match CustomerInputs.UpdateCustomerInput.email data with
            | Some email => PrismaCustomers.emailOfAnother id email db
            | None => false
            end); [discriminate|].
  by intros [= <- _].
Qed.

Lemma deleteCustomer_orders id db db' :
  CustomerService.deleteCustomer id db
  = (db', Ok (CustomerService.DeleteResult.mk 0)) ->
  orders db' = orders db.
Proof.
  unfold CustomerService.deleteCustomer, PrismaCustomers.customer_delete.
  destruct (customer_findUnique id db) as [c|]; [|discriminate].
  intros [= <- Hcount]. simpl.
  apply (filter_nothing_out (fun o => Order.customerId o = id)).
  unfold PrismaCustomers.customer_orderCount in Hcount. lia.
Qed.

Lemma numberedBelow_same_orders db db' :
  orders db' = orders db -> numberedBelow db -> numberedBelow db'.
Proof. unfold numberedBelow, order_count. by intros ->. Qed.

Lemma numberedBelow_step db db' :
  growthStep db db' -> numberedBelow db -> numberedBelow db'.
Proof.
  intros [y d after out Hcall|i d after out Hcall|m d after c Hcall
         |i d after c Hcall|i after Hcall] Hnum;
    [| |apply (numberedBelow_same_orders db);
          [by apply (createCustomer_orders m d db after c)|done]
       |apply (numberedBelow_same_orders db);
          [by apply (updateCustomer_orders i d db after c)|done]
       |apply (numberedBelow_same_orders db);
          [by apply (deleteCustomer_orders i db after)|done]];
    unfold numberedBelow, order_count in *.
  - destruct (createOrder_inv _ _ _ _ _ Hcall) as (_ & -> & _). simpl.
    rewrite length_app. simpl. apply Forall_app. split.
    + eapply list.Forall_impl; [exact Hnum|].
      intros o (y' & k & Hk & E). exists y', k. split; [lia|done].
    + constructor; [|constructor]. simpl.
      exists y, (N.of_nat (length (orders db))). split; [lia|done].
  - destruct (updateOrder_rows _ _ _ _ _ Hcall) as (o & Hin & Hnr & _ & ->).
    rewrite length_map. rewrite list.Forall_forall in Hnum |- *.
    intros x (z & -> & Hz)%list_elem_of_fmap. unfold replaceRow.
    destruct (String.eqb (Order.id z) i); [|by apply Hnum].
    rewrite Hnr. by apply Hnum.
Qed.

Lemma numberedBelow_run start db :
  orders start = [] -> growthRun start db -> numberedBelow db.
Proof.
  intros Hstart. unfold growthRun.
  induction 1 as [|mid db' _ IH Hstep].
  - unfold numberedBelow. rewrite Hstart. constructor.
  - by apply (numberedBelow_step mid db').
Qed.

(** C2, as the claim words it, fails. After two creations and the
    deletion of the first order, one order is counted, so the number
    generated for the next creation is the one the second order still
    carries: whatever the store then does with the row, a creation that
    succeeds there carries a number in use. The same happens without any
    deletion when two creations overlap: a creation that counted the
    orders before another one inserted its row generates the number of
    that row. And with 999,999 orders counted the sequence has seven
    digits. *)
Lemma orderNumber_not_always_fresh :
  serviceRun seeded secondOnly
  /\ order_count secondOnly = 1%N
  /\ OrderService.orderNumber 2024 (order_count secondOnly)
     = "ORD-2024-000002"
  /\ (exists kept,
        kept ∈ orders secondOnly
        /\ Order.orderNumber kept = "ORD-2024-000002")
  /\ (forall db' out,
        OrderService.createOrder 2024 laptopAndMice secondOnly
        = (db', Ok out) ->
        Order.orderNumber (OrderWithRelations.order out)
        = "ORD-2024-000002")
  /\ (exists inserted,
        inserted ∈ orders twoOrders
        /\ Order.orderNumber inserted
           = OrderService.orderNumber 2024 (order_count oneOrder))
  /\ OrderService.orderNumber 2024 999999 = "ORD-2024-1000000"
  /\ matchesOrderPattern (OrderService.orderNumber 2024 999999) = false.
Proof.
  split; [|split; [|split; [|split; [|split; [|split; [|split]]]]]].
  - eapply run_more; [apply twoOrders_run|].
    apply (step_delete twoOrders "c2"). reflexivity.
  - reflexivity.
  - reflexivity.
  - eexists. split; [apply list_elem_of_here|reflexivity].
  - intros db' out Hcall.
    by destruct (createOrder_inv _ _ _ _ _ Hcall) as (_ & _ & ->).
  - eexists. split; [right; apply list_elem_of_here|reflexivity].
  - reflexivity.
  - reflexivity.
Qed.

(** C2, amended. Whatever the store holds, the number a creation gives its
    order is "ORD-", the current year in decimal, "-", and a sequence of at
    least six digits that denotes the count of existing orders plus one,
    padded with zeros on the left. When the year has four digits and fewer
    than 999,999 orders exist the number has the form ORD-dddd-dddddd. When
    the service calls ran one after another and none of them removed an
    order since the store held none, no existing order carries the
    generated number. *)
Theorem orderNumber_shape_and_freshness
    (db : Store) (fullYear : N) (data : CreateOrderInput.t)
    (db' : Store) (out : OrderWithRelations.t) :
  OrderService.createOrder fullYear data db = (db', Ok out) ->
  let number := Order.orderNumber (OrderWithRelations.order out) in
  (exists year sequence,
     number = "ORD-" +:+ year +:+ "-" +:+ sequence
     /\ year = Js.toString fullYear
     /\ allDigits year = true /\ decimalValue year = fullYear
     /\ allDigits sequence = true
     /\ decimalValue sequence = (order_count db + 1)%N
     /\ (6 <= String.length sequence)%nat
     /\ ((1000 <= fullYear <= 9999)%N -> (order_count db < 999999)%N ->
         String.length year = 4%nat /\ String.length sequence = 6%nat
         /\ matchesOrderPattern number = true))
  /\ (forall start,
        orders start = [] -> growthRun start db ->
        Forall (fun o => Order.orderNumber o ≠ number) (orders db)).
Proof.
  intros Hcall number.
  destruct (createOrder_inv _ _ _ _ _ Hcall) as (_ & _ & Hout).
  assert (Hnum : number = OrderService.orderNumber fullYear (order_count db))
    by (unfold number; by rewrite Hout).
  destruct (sequence_facts (order_count db + 1)) as (Hd & Hv & Hlen & Hsix).
  split.
  - exists (Js.toString fullYear),
      (Js.padStart 6 "0" (Js.toString (order_count db + 1))).
    split; [exact Hnum|]. split; [done|].
    split; [apply pretty_digits|]. split; [apply pretty_value|].
    split; [exact Hd|]. split; [exact Hv|]. split; [exact Hlen|].
    intros Hyear Hcount.
    assert (Hy : String.length (Js.toString fullYear) = 4%nat)
      by (by apply pretty_length_four).
    assert (Hs : String.length
                   (Js.padStart 6 "0" (Js.toString (order_count db + 1)))
                 = 6%nat) by (apply Hsix; lia).
    split; [exact Hy|]. split; [exact Hs|].
    rewrite Hnum. apply pattern_of_parts; [exact Hy| |exact Hs|exact Hd].
    apply pretty_digits.
  - intros start Hstart Hrun.
    pose proof (numberedBelow_run start db Hstart Hrun) as Hbelow.
    eapply list.Forall_impl; [exact Hbelow|].
    intros o (y & k & Hk & Eo) E. rewrite Eo, Hnum in E.
    apply orderNumber_inj in E as [_ ->]. lia.
Qed.

Lemma growth_withBob : growthRun seeded withBob.
Proof.
  eapply run_more; [eapply run_more; [eapply run_more; [apply run_here|]|]|].
  - eapply (grow_create seeded 2024 laptopAndMice). reflexivity.
  - eapply (grow_create oneOrder 2024 laptopAndMice). reflexivity.
  - eapply (grow_createCustomer twoOrders sampleMessage
              bob).
    reflexivity.
Qed.

Lemma orderNumber_shape_and_freshness_witness :
  (exists db' out,
     OrderService.createOrder 2024 laptopAndMice withBob = (db', Ok out)
     /\ Order.orderNumber (OrderWithRelations.order out) = "ORD-2024-000003"
     /\ matchesOrderPattern
          (Order.orderNumber (OrderWithRelations.order out)) = true
     /\ Forall
          (fun o => Order.orderNumber o
                    ≠ Order.orderNumber (OrderWithRelations.order out))
          (orders withBob))
  /\ (exists db' out,
        OrderService.createOrder 2025 laptopAndMice secondOnly
        = (db', Ok out)
        /\ Order.orderNumber (OrderWithRelations.order out)
           = "ORD-2025-000002"
        /\ matchesOrderPattern
             (Order.orderNumber (OrderWithRelations.order out)) = true).
Proof.
  split.
  - eexists _, _. split; [reflexivity|]. split; [reflexivity|].
    destruct (orderNumber_shape_and_freshness withBob 2024 laptopAndMice
                _ _ eq_refl)
      as ((year & sequence & _ & _ & _ & _ & _ & _ & _ & Hform) & Hfresh).
    split; [|exact (Hfresh seeded eq_refl growth_withBob)].
    apply Hform; [split; by vm_compute|by vm_compute].
  - eexists _, _. split; [reflexivity|]. split; [reflexivity|].
    destruct (orderNumber_shape_and_freshness secondOnly 2025 laptopAndMice
                _ _ eq_refl)
      as ((year & sequence & _ & _ & _ & _ & _ & _ & _ & Hform) & _).
    apply Hform; [split; by vm_compute|by vm_compute].
Defined.

(** * Further properties of the code *)

Import ValidationMiddleware CustomerInputs PrismaCustomers MoreProps.

(** ** The gate, login and the routes *)

(** X1. The gate lets a request through only after a successful
    verification: then the header had a second space-separated piece, not
    empty, which verified to the identity now stored in the request, and
    the header is passed on unchanged. Whenever it answers itself the
    answer is a 401 with one of its two messages and nothing else. *)
Theorem gate_passes_only_verified
    (verifyToken : string -> Result JwtPayload.t) (req : Auth.Request.t) :
  match Auth.authenticateToken verifyToken req with
  | Auth.Next req' =>
      exists header tok identity,
        Auth.Request.authorization req = Some header
        /\ Js.split " " header !! 1%nat = Some tok
        /\ tok <> ""
        /\ verifyToken tok = Ok identity
        /\ req' = Auth.Request.mk (Some header) (Some identity)
  | Auth.Responded res =>
      res = refusal 401 "Access token required"
      \/ res = refusal 401 "Invalid or expired token"
  end.
Proof.
  unfold Auth.authenticateToken, Auth.token.
  destruct req as [[header|] u]; simpl; [|by left].
  destruct (String.eqb_spec header "") as [->|Hne]; simpl; [by left|].
  destruct (Js.split " " header !! 1%nat) as [tok|] eqn:Htok; simpl;
    [|by left].
  destruct (String.eqb_spec tok "") as [->|Htne]; [by left|].
  destruct (verifyToken tok) as [identity|cause] eqn:Hv; [|by right].
  by exists header, tok, identity.
Qed.

Lemma login_inv cmp gen credentials db result :
  AuthService.login cmp gen credentials db = Ok result ->
  exists user,
    user_findUnique (LoginInput.email credentials) db = Some user
    /\ cmp (LoginInput.password credentials) (User.password user) = true
    /\ result
       = AuthService.LoginResult.mk
           (gen (JwtPayload.mk (User.id user) (User.email user)))
           (AuthService.LoginUser.mk (User.id user) (User.email user)
              (User.createdAt user)).
Proof.
  unfold AuthService.login.
  destruct (user_findUnique _ db) as [user|]; [|discriminate].
  destruct (cmp _ _) eqn:Hc; simpl; [|discriminate].
  intros [= <-]. by exists user.
Qed.

Lemma user_findUnique_Some email db user :
  user_findUnique email db = Some user ->
  user ∈ users db /\ User.email user = email.
Proof.
  unfold user_findUnique. intros H. apply find_some in H as [Hin He].
  split; [by apply list_elem_of_In|by apply String.eqb_eq].
Qed.

(** X2. A login succeeds only for a stored user whose email is the one
    submitted and whose stored hash the password matches. The token is then
    the one generated for that user's id and the submitted email, the same
    id and email come back in the response, and the handler answers 200
    "Login successful" with exactly that result. *)
Theorem login_success_is_for_the_submitted_user
    (comparePassword : string -> string -> bool)
    (generateToken : JwtPayload.t -> string)
    (credentials : LoginInput.t) (db : Store)
    (result : AuthService.LoginResult.t) :
  AuthService.login comparePassword generateToken credentials db = Ok result ->
  let email := LoginInput.email credentials in
  let returned := AuthService.LoginResult.user result in
  exists user,
    user ∈ users db
    /\ User.email user = email
    /\ comparePassword (LoginInput.password credentials) (User.password user)
       = true
    /\ AuthService.LoginUser.id returned = User.id user
    /\ AuthService.LoginUser.email returned = email
    /\ AuthService.LoginResult.token result
       = generateToken (JwtPayload.mk (User.id user) email)
    /\ AuthController.login comparePassword generateToken credentials db
       = HttpResponse.mk 200
           (ApiResponse.mk true "Login successful" (Some result) None None).
Proof.
  intros Hlogin email returned.
  destruct (login_inv _ _ _ _ _ Hlogin) as (user & Hfind & Hcmp & Hres).
  destruct (user_findUnique_Some _ _ _ Hfind) as [Hin Hemail].
  exists user. unfold returned, email. rewrite Hres; simpl.
  rewrite Hemail. repeat (split; [done|]).
  unfold AuthController.login. rewrite Hlogin. by rewrite Hres, Hemail.
Qed.

Lemma login_success_is_for_the_submitted_user_witness :
  exists result,
    AuthService.login sampleCompare sampleSign
      (LoginInput.mk "admin@example.com" "admin123") seeded = Ok result
    /\ AuthService.LoginResult.token result = "signed:c0".
Proof.
  eexists. split; [reflexivity|].
  destruct (login_success_is_for_the_submitted_user sampleCompare sampleSign
              (LoginInput.mk "admin@example.com" "admin123") seeded _ eq_refl)
    as (user & _ & _ & _ & Hid & _ & Htok & _).
  simpl in Hid. rewrite Htok, <- Hid. reflexivity.
Defined.

(** X3. Login and the gate fit together: when the token of a successful
    login holds no space, is not empty, and verifies to the identity it was
    generated for, a request presenting it as "Bearer <token>" passes the
    gate with the id and email of the login response attached, the email
    being the one submitted. *)
Theorem login_token_opens_the_gate
    (comparePassword : string -> string -> bool)
    (generateToken : JwtPayload.t -> string)
    (verifyToken : string -> Result JwtPayload.t)
    (credentials : LoginInput.t) (db : Store)
    (result : AuthService.LoginResult.t) (u : option JwtPayload.t) :
  AuthService.login comparePassword generateToken credentials db = Ok result ->
  let identity :=
    JwtPayload.mk
      (AuthService.LoginUser.id (AuthService.LoginResult.user result))
      (AuthService.LoginUser.email (AuthService.LoginResult.user result)) in
  let token := AuthService.LoginResult.token result in
  verifyToken (generateToken identity) = Ok identity ->
  hasSpace token = false ->
  token <> "" ->
  JwtPayload.email identity = LoginInput.email credentials
  /\ Auth.authenticateToken verifyToken
       (Auth.Request.mk (Some ("Bearer " +:+ token)) u)
     = Auth.Next
         (Auth.Request.mk (Some ("Bearer " +:+ token)) (Some identity)).
Proof.
  intros Hlogin identity token Hround Hspace Hne.
  destruct (login_inv _ _ _ _ _ Hlogin) as (user & Hfind & _ & Hres).
  destruct (user_findUnique_Some _ _ _ Hfind) as [_ Hemail].
  assert (Htok : token = generateToken identity).
  { unfold token, identity. by rewrite Hres. }
  split. { unfold identity. by rewrite Hres. }
  unfold Auth.authenticateToken.
  pose proof (token_of_header "Bearer" token u eq_refl) as Ht.
  change ("Bearer" +:+ " " +:+ token) with ("Bearer " +:+ token) in Ht.
  rewrite Ht, (upToSpace_no_space _ Hspace). simpl.
  destruct (String.eqb_spec token "") as [E|_]; [done|].
  by rewrite Htok, Hround.
Qed.

Lemma login_token_opens_the_gate_witness :
  Auth.authenticateToken
    (acceptOnly "signed:c0" (JwtPayload.mk "c0" "admin@example.com"))
    (Auth.Request.mk (Some "Bearer signed:c0") None)
  = Auth.Next
      (Auth.Request.mk (Some "Bearer signed:c0")
         (Some (JwtPayload.mk "c0" "admin@example.com"))).
Proof.
  destruct (login_token_opens_the_gate sampleCompare sampleSign
              (acceptOnly "signed:c0" (JwtPayload.mk "c0" "admin@example.com"))
              (LoginInput.mk "admin@example.com" "admin123") seeded
              _ None eq_refl eq_refl eq_refl)
    as [_ Hgate]; [discriminate|].
  exact Hgate.
Defined.

Lemma relay_refusal {T} code message :
  OrderRoutes.relay (refusal code message) = (refusal code message : HttpResponse.t T).
Proof. reflexivity. Qed.

Lemma gate_refusals verifyToken req res :
  Auth.authenticateToken verifyToken req = Auth.Responded res ->
  res = refusal 401 "Access token required"
  \/ res = refusal 401 "Invalid or expired token".
Proof.
  unfold Auth.authenticateToken.
  destruct (Auth.falsy (Auth.token req)); [intros [= <-]; by left|].
  destruct (verifyToken _); [discriminate|intros [= <-]; by right].
Qed.

Lemma issueLine_nonempty err : issueLine err <> "".
Proof.
  intros H. apply (f_equal String.length) in H. unfold issueLine in H.
  rewrite !string_app_length in H. simpl in H. lia.
Qed.

Lemma concat_nonempty sep x (xs : list string) :
  x <> "" -> String.concat sep (x :: xs) <> "".
Proof.
  intros Hx H. apply (f_equal String.length) in H.
  destruct x as [|a x]; [done|].
  destruct xs; simpl in H; discriminate H.
Qed.

Section RouterProperties.
Context {RawBody RawQuery Listing : Type}.
Variable verifyToken : string -> Result JwtPayload.t.
Variable createOrderSchema : RawBody -> ParseResult CreateOrderInput.t.
Variable updateOrderSchema : RawBody -> ParseResult UpdateOrderInput.t.
Variable paginationSchema : RawQuery -> ParseResult PaginationInput.t.
Variable getOrders : PaginationInput.t -> Store -> HttpResponse.t Listing.

Local Abbreviation postOrder :=
  (OrderRoutes.postOrder verifyToken createOrderSchema).
Local Abbreviation listOrders :=
  (OrderRoutes.listOrders verifyToken paginationSchema getOrders).
Local Abbreviation getOrder := (OrderRoutes.getOrder verifyToken).
Local Abbreviation putOrder :=
  (OrderRoutes.putOrder verifyToken updateOrderSchema).
Local Abbreviation deleteOrder := (OrderRoutes.deleteOrder verifyToken).

Lemma guarded_refused {T} req res db (route : Store * HttpResponse.t T) :
  Auth.authenticateToken verifyToken req = Auth.Responded res ->
  OrderRoutes.guarded verifyToken req db route = (db, OrderRoutes.relay res).
Proof. unfold OrderRoutes.guarded. by intros ->. Qed.

Lemma guarded_passed {T} req req' db (route : Store * HttpResponse.t T) :
  Auth.authenticateToken verifyToken req = Auth.Next req' ->
  OrderRoutes.guarded verifyToken req db route = route.
Proof. unfold OrderRoutes.guarded. by intros ->. Qed.

(** X4. On every order route a request the gate refuses is answered with
    the gate's 401 envelope, and the store is left as it was: no handler
    and no validator runs. *)
Theorem refused_requests_reach_no_handler
    (req : Auth.Request.t) (res : HttpResponse.t unit)
    (fullYear : N) (id : string) (body : RawBody) (query : RawQuery)
    (db : Store) :
  Auth.authenticateToken verifyToken req = Auth.Responded res ->
  (res = refusal 401 "Access token required"
   \/ res = refusal 401 "Invalid or expired token")
  /\ postOrder fullYear req body db = (db, OrderRoutes.relay res)
  /\ listOrders req query db = (db, OrderRoutes.relay res)
  /\ getOrder req id db = (db, OrderRoutes.relay res)
  /\ putOrder req id body db = (db, OrderRoutes.relay res)
  /\ deleteOrder req id db = (db, OrderRoutes.relay res)
  /\ HttpResponse.statusCode (snd (postOrder fullYear req body db)) = 401%N.
Proof.
  intros Hgate. pose proof (gate_refusals _ _ _ Hgate) as Hres.
  split; [exact Hres|].
  unfold OrderRoutes.postOrder, OrderRoutes.listOrders, OrderRoutes.getOrder,
    OrderRoutes.putOrder, OrderRoutes.deleteOrder.
  rewrite !(guarded_refused _ _ _ _ Hgate).
  repeat (split; [reflexivity|]). by destruct Hres as [-> | ->].
Qed.

(** X5. The store changes through an order route only when the gate has
    let the request through and, where the route has a validator, the
    schema has accepted the body; the entity the call refers to (the
    customer of a new order, the order to update or delete) then exists. *)
Theorem store_changes_need_token_and_valid_body
    (req : Auth.Request.t) (fullYear : N) (id : string) (body : RawBody)
    (db : Store) :
  (fst (postOrder fullYear req body db) <> db ->
     exists req' data,
       Auth.authenticateToken verifyToken req = Auth.Next req'
       /\ createOrderSchema body = Parsed data
       /\ is_Some (customer_findUnique (CreateOrderInput.customerId data) db))
  /\ (fst (putOrder req id body db) <> db ->
        exists req' data,
          Auth.authenticateToken verifyToken req = Auth.Next req'
          /\ updateOrderSchema body = Parsed data
          /\ is_Some (order_findRow id db))
  /\ (fst (deleteOrder req id db) <> db ->
        exists req',
          Auth.authenticateToken verifyToken req = Auth.Next req'
          /\ is_Some (order_findRow id db)).
Proof.
  unfold OrderRoutes.postOrder, OrderRoutes.putOrder,
    OrderRoutes.deleteOrder, OrderRoutes.guarded, validateBody.
  destruct (Auth.authenticateToken verifyToken req) as [res|req'];
    simpl; [by repeat split|].
  split; [|split].
  - destruct (createOrderSchema body) as [data| |]; simpl; [|done..].
    unfold OrderController.createOrder, OrderService.createOrder.
    destruct (customer_findUnique _ db) as [c|] eqn:Hc; simpl; [|done].
    intros _. exists req', data. by rewrite Hc.
  - destruct (updateOrderSchema body) as [data| |]; simpl; [|done..].
    unfold OrderController.updateOrder.
    destruct (OrderService.updateOrder id data db) as [db' [out|m]] eqn:Hu;
      simpl.
    + intros _. exists req', data. split; [done|]. split; [done|].
      destruct (order_findRow id db) eqn:Hf; [done|].
      unfold OrderService.updateOrder, order_update in Hu. rewrite Hf in Hu.
      by destruct (UpdateOrderInput.items data).
    + by destruct (updateOrder_fails _ _ _ _ _ Hu) as (-> & _).
  - unfold OrderController.deleteOrder, OrderService.deleteOrder,
      order_delete.
    destruct (order_findRow id db) eqn:Hf; simpl; [|done].
    intros _. by exists req'.
Qed.

(** X6. A body the schema rejects never reaches the handler: once the gate
    has passed, creation and update answer 400 "Validation failed", the
    detail lists every issue as "path.joined.by.dots: message" separated by
    ", " in the order zod reported them, and the store is left as it was. *)
Theorem rejected_bodies_are_listed
    (req req' : Auth.Request.t) (fullYear : N) (id : string)
    (body : RawBody) (first : ZodIssue.t) (others : list ZodIssue.t)
    (db : Store) :
  Auth.authenticateToken verifyToken req = Auth.Next req' ->
  let detail := String.concat ", " (map issueLine (first :: others)) in
  (createOrderSchema body = ZodError (first :: others) ->
     postOrder fullYear req body db
     = (db, failure 400 "Validation failed" detail))
  /\ (updateOrderSchema body = ZodError (first :: others) ->
        putOrder req id body db
        = (db, failure 400 "Validation failed" detail))
  /\ detail <> ""
  /\ (others = [] ->
        detail
        = String.concat "." (ZodIssue.path first) +:+ ": "
            +:+ ZodIssue.message first).
Proof.
  intros Hgate detail.
  assert (Hdetail : detail <> "").
  { unfold detail. simpl map. apply concat_nonempty, issueLine_nonempty. }
  assert (Hsend : forall T,
            OrderRoutes.relay
              (ApiResponseUtil.error "Validation failed" (Some detail)
                 (Some 400%N))
            = (failure 400 "Validation failed" detail : HttpResponse.t T)).
  { intros T. unfold ApiResponseUtil.error, OrderRoutes.relay, failure. simpl.
    by destruct (String.eqb_spec detail ""). }
  unfold OrderRoutes.postOrder, OrderRoutes.putOrder.
  rewrite !(guarded_passed _ _ _ _ Hgate). unfold validateBody.
  split; [|split; [|split]].
  - intros ->. by rewrite <- Hsend.
  - intros ->. by rewrite <- Hsend.
  - exact Hdetail.
  - intros ->. reflexivity.
Qed.

(** X7. Whatever the request, the answer of the creating, reading,
    updating and deleting order routes is a well-shaped envelope: either
    success with status 200 or 201 and no error detail, or failure with a
    status of 400 or more and no data. *)
Theorem order_routes_answer_well_shaped
    (req : Auth.Request.t) (fullYear : N) (id : string) (body : RawBody)
    (db : Store) :
  wellShaped (snd (postOrder fullYear req body db))
  /\ wellShaped (snd (getOrder req id db))
  /\ wellShaped (snd (putOrder req id body db))
  /\ wellShaped (snd (deleteOrder req id db)).
Proof.
  assert (Hfail : forall T code message detail,
            (400 <= code)%N ->
            wellShaped (ApiResponseUtil.error (T:=T) message detail
                          (Some code))).
  { intros T code message detail Hcode. right.
    unfold ApiResponseUtil.error. simpl. done. }
  assert (Hrelay : forall T res,
            (res = refusal 401 "Access token required"
             \/ res = refusal 401 "Invalid or expired token") ->
            wellShaped (OrderRoutes.relay (T:=T) res)).
  { intros T res [-> | ->]; right; simpl; repeat split; lia. }
  assert (Hvalid : forall T U (schema : RawBody -> ParseResult U) res,
            validateBody schema body = Responded res ->
            wellShaped (OrderRoutes.relay (T:=T) res)).
  { intros T U schema res. unfold validateBody.
    destruct (schema body) as [v|errors|]; simpl; intros H;
      [discriminate H|injection H as <-..];
      right; simpl; repeat split; lia. }
  unfold OrderRoutes.postOrder, OrderRoutes.getOrder, OrderRoutes.putOrder,
    OrderRoutes.deleteOrder, OrderRoutes.guarded.
  destruct (Auth.authenticateToken verifyToken req) as [res|req'] eqn:Hgate.
  { pose proof (gate_refusals _ _ _ Hgate) as Hres. simpl.
    repeat split; by apply Hrelay. }
  split; [|split; [|split]].
  - destruct (validateBody createOrderSchema body) as [res|data] eqn:Hv.
    { simpl. by apply (Hvalid _ _ createOrderSchema). }
    unfold OrderController.createOrder.
    destruct (OrderService.createOrder fullYear data db) as [db' [out|m]];
      simpl.
    + left. simpl. auto.
    + right. unfold ApiResponseUtil.error. simpl. repeat split; lia.
  - simpl. unfold OrderController.getOrderById.
    destruct (OrderService.getOrderById id db); [left|right]; simpl;
      repeat split; auto; lia.
  - destruct (validateBody updateOrderSchema body) as [res|data] eqn:Hv.
    { simpl. by apply (Hvalid _ _ updateOrderSchema). }
    unfold OrderController.updateOrder.
    destruct (OrderService.updateOrder id data db) as [db' [out|m]];
      [left|right]; simpl; repeat split; auto; lia.
  - unfold OrderController.deleteOrder.
    destruct (OrderService.deleteOrder id db) as [db' [out|m]];
      [left|right]; simpl; repeat split; auto; lia.
Qed.

End RouterProperties.

Lemma refused_requests_reach_no_handler_witness :
  OrderRoutes.postOrder sampleVerify sampleCreateSchema 2024 anonymous
    (Some laptopAndMice, None) seeded
  = (seeded, refusal 401 "Access token required")
  /\ OrderRoutes.deleteOrder sampleVerify (bearer "stale") "c2" oneOrder
     = (oneOrder, refusal 401 "Invalid or expired token").
Proof.
  split.
  - destruct (refused_requests_reach_no_handler sampleVerify
                sampleCreateSchema sampleUpdateSchema samplePagination
                sampleListing anonymous _ 2024 "c2"
                (Some laptopAndMice, None) (PaginationQuery.mk None None)
                seeded eq_refl) as (_ & Hpost & _).
    exact Hpost.
  - destruct (refused_requests_reach_no_handler sampleVerify
                sampleCreateSchema sampleUpdateSchema samplePagination
                sampleListing (bearer "stale") _ 2024 "c2"
                (Some laptopAndMice, None) (PaginationQuery.mk None None)
                oneOrder eq_refl) as (_ & _ & _ & _ & _ & Hdel & _).
    exact Hdel.
Defined.

Lemma store_changes_need_token_and_valid_body_witness :
  exists req' data,
    Auth.authenticateToken sampleVerify (bearer "good") = Auth.Next req'
    /\ sampleCreateSchema (Some laptopAndMice, None) = Parsed data
    /\ is_Some (customer_findUnique (CreateOrderInput.customerId data) seeded).
Proof.
  destruct (store_changes_need_token_and_valid_body sampleVerify
              sampleCreateSchema sampleUpdateSchema (bearer "good") 2024 "c2"
              (Some laptopAndMice, None) seeded) as (Hpost & _).
  apply Hpost. intros H. apply (f_equal nextId) in H. vm_compute in H.
  discriminate H.
Defined.

Lemma rejected_bodies_are_listed_witness :
  OrderRoutes.postOrder sampleVerify sampleCreateSchema 2024 (bearer "good")
    (None, None) seeded
  = (seeded, failure 400 "Validation failed" "items.0.quantity: Required").
Proof.
  destruct (rejected_bodies_are_listed sampleVerify sampleCreateSchema
              sampleUpdateSchema (bearer "good") _ 2024 "c2" (None, None)
              (ZodIssue.mk ["items"; "0"; "quantity"] "Required") [] seeded
              eq_refl) as (Hpost & _).
  exact (Hpost eq_refl).
Defined.

(** ** The final error handler *)

Lemma serverError_cases (nodeEnv : option string) (message : string) :
  let detail :=
    match nodeEnv with
    | Some env => if String.eqb env "development" then Some message else None
    | None => None
    end in
  (ApiResponseUtil.serverError (T:=unit) detail
   = failure 500 "Internal server error" message
   /\ nodeEnv = Some "development" /\ message <> "")
  \/ (ApiResponseUtil.serverError (T:=unit) detail
      = refusal 500 "Internal server error"
      /\ (nodeEnv <> Some "development" \/ message = "")).
Proof.
  unfold ApiResponseUtil.serverError, ApiResponseUtil.error.
  destruct nodeEnv as [env|]; simpl.
  - destruct (String.eqb_spec env "development") as [->|Henv].
    + destruct (String.eqb_spec message "") as [->|Hm].
      * right. split; [done|by right].
      * left. by repeat split.
    + right. split; [done|]. left. congruence.
  - right. split; [done|by left].
Qed.

(** X8. The final error handler has four answers and no other. 409
    "Unique constraint violation" is sent exactly for an error named
    PrismaClientKnownRequestError with code P2002, and 404 "Resource not
    found" exactly for that name with code P2025 (the codes alone, under
    another name, do not count). Everything else is a 500 "Internal server
    error", and the error's message is shown only when NODE_ENV is
    "development" and the message is not empty: in any other mode the
    answer does not depend on the message at all. *)
Theorem errorHandler_answers (nodeEnv : option string)
    (error : ErrorHandler.JsError.t) :
  let answer := ErrorHandler.errorHandler nodeEnv error in
  let prisma :=
    ErrorHandler.JsError.name error = "PrismaClientKnownRequestError" in
  let code := ErrorHandler.JsError.code error in
  let message := ErrorHandler.JsError.message error in
  (answer = failure 409 "Unique constraint violation" "Resource already exists"
   /\ prisma /\ code = Some "P2002")
  \/ (answer = refusal 404 "Resource not found"
      /\ prisma /\ code = Some "P2025")
  \/ (answer = failure 500 "Internal server error" message
      /\ nodeEnv = Some "development" /\ message <> ""
      /\ ~ (prisma /\ (code = Some "P2002" \/ code = Some "P2025")))
  \/ (answer = refusal 500 "Internal server error"
      /\ (nodeEnv <> Some "development" \/ message = "")
      /\ ~ (prisma /\ (code = Some "P2002" \/ code = Some "P2025"))).
Proof.
  destruct error as [name code message]. simpl.
  unfold ErrorHandler.errorHandler, ErrorHandler.hasCode. simpl.
  pose proof (serverError_cases nodeEnv message) as Hfallback.
  simpl in Hfallback.
  destruct (String.eqb_spec name "PrismaClientKnownRequestError") as [Hn|Hn].
  - destruct code as [c|].
    + destruct (String.eqb_spec c "P2002") as [->|H1]; [by left|].
      destruct (String.eqb_spec c "P2025") as [->|H2]; [right; by left|].
      right; right.
      destruct Hfallback as [(-> & ? & ?)|(-> & ?)]; [left|right];
        repeat (split; [done|]); intros [_ [[= ?]|[= ?]]]; congruence.
    + right; right.
      destruct Hfallback as [(-> & ? & ?)|(-> & ?)]; [left|right];
        repeat (split; [done|]); by intros [_ [?|?]].
  - right; right.
    destruct Hfallback as [(-> & ? & ?)|(-> & ?)]; [left|right];
      repeat (split; [done|]); by intros [? _].
Qed.

(** ** Pagination *)

Lemma parseInt10_digit_first a rest :
  Js.isDigit a = true ->
  Js.parseInt10 (String a rest)
  = Js.ofZ false (Js.mathInt (a :: Js.takeDigits rest)).
Proof.
  destruct a as [[] [] [] [] [] [] [] []]; try discriminate; reflexivity.
Qed.

Lemma mathInt_decimalValue s acc :
  allDigits s = true ->
  fold_left (fun z d => (z * 10 + Js.digitValue d)%Z) (Js.takeDigits s)
    (Z.of_N acc)
  = Z.of_N (decimalValueFrom acc s).
Proof.
  revert acc. induction s as [|a s IH]; intros acc Hs; [done|].
  simpl in Hs. apply andb_true_iff in Hs as [Ha Hs]. simpl. rewrite Ha.
  simpl. rewrite <- (IH _ Hs). f_equal.
  unfold Js.isDigit in Ha. apply andb_true_iff in Ha as [Hlo _].
  apply Nat.leb_le in Hlo. unfold Js.digitValue, nat_of_ascii in *. lia.
Qed.

Lemma pretty_first_digit (n : N) :
  exists a rest, pretty n = String a rest /\ Js.isDigit a = true.
Proof.
  pose proof (pretty_digits n) as Hd.
  destruct (pretty n) as [|a rest] eqn:E.
  - exfalso. destruct (decide (n = 0%N)) as [->|Hn]; [discriminate E|].
    destruct (decimalOf_bounds n _ (pretty_decimal n ltac:(lia))) as [Hl _].
    rewrite E in Hl. simpl in Hl. lia.
  - simpl in Hd. apply andb_true_iff in Hd as [Ha _]. by exists a, rest.
Qed.

Lemma parseInt10_toString (n : N) :
  Js.parseInt10 (Js.toString n) = Js.ofZ false (Z.of_N n).
Proof.
  unfold Js.toString. destruct (pretty_first_digit n) as (a & rest & E & Ha).
  pose proof (pretty_digits n) as Hd. pose proof (pretty_value n) as Hv.
  rewrite E in Hd, Hv |- *. rewrite (parseInt10_digit_first _ _ Ha).
  f_equal. unfold Js.mathInt.
  pose proof (mathInt_decimalValue (String a rest) 0 Hd) as Hm.
  simpl in Hm. rewrite Ha in Hm. simpl in Hm.
  unfold decimalValue in Hv. simpl in Hv. simpl. by rewrite Hm, Hv.
Qed.

(** X9. A page or limit sent as the decimal digits of a number n is read as
    n (the Number nearest to it), never as the default: this includes "0".
    Together with the absent and the empty field, which give 1 and 10,
    these are the only inputs on which the defaults decide. *)
Theorem pagination_reads_decimal_strings (n m : N) :
  paginationSchema
    (PaginationQuery.mk (Some (Js.toString n)) (Some (Js.toString m)))
  = PaginationInput.mk (Js.ofZ false (Z.of_N n)) (Js.ofZ false (Z.of_N m))
  /\ paginationSchema (PaginationQuery.mk (Some (Js.toString n)) None)
     = PaginationInput.mk (Js.ofZ false (Z.of_N n)) 10%float
  /\ paginationSchema (PaginationQuery.mk None (Some (Js.toString m)))
     = PaginationInput.mk 1%float (Js.ofZ false (Z.of_N m)).
Proof.
  assert (Hread : forall fallback k,
            transformOr fallback (Some (Js.toString k))
            = Js.ofZ false (Z.of_N k)).
  { intros fallback k. unfold transformOr.
    destruct (pretty_first_digit k) as (a & rest & E & _).
    destruct (String.eqb_spec (Js.toString k) "") as [E'|_].
    - unfold Js.toString in E'. congruence.
    - apply parseInt10_toString. }
  unfold paginationSchema.
  cbn [PaginationQuery.page PaginationQuery.limit]. by rewrite !Hread.
Qed.

(** ** Reading back, deleting, updating: how the order calls compose *)

Lemma find_filter_removed id (rows : list Order.t) :
  find (fun o => String.eqb (Order.id o) id)
    (filter (fun o => Order.id o ≠ id) rows) = None.
Proof.
  induction rows as [|x rows IH]; [done|]. rewrite filter_cons.
  destruct (decide (Order.id x ≠ id)) as [Hne|_]; [|exact IH].
  simpl. by destruct (String.eqb_spec (Order.id x) id).
Qed.

Lemma find_filter_other id other (rows : list Order.t) :
  other ≠ id ->
  find (fun o => String.eqb (Order.id o) other)
    (filter (fun o => Order.id o ≠ id) rows)
  = find (fun o => String.eqb (Order.id o) other) rows.
Proof.
  intros Hne. induction rows as [|x rows IH]; [done|]. rewrite filter_cons.
  destruct (decide (Order.id x ≠ id)) as [Hx|Hx]; simpl.
  - by rewrite IH.
  - destruct (String.eqb_spec (Order.id x) other) as [E|_]; [|exact IH].
    exfalso. apply Hx. congruence.
Qed.

Lemma find_appended_other other row (rows : list Order.t) :
  Order.id row ≠ other ->
  find (fun o => String.eqb (Order.id o) other) (rows ++ [row])
  = find (fun o => String.eqb (Order.id o) other) rows.
Proof.
  intros Hne. induction rows as [|x rows IH]; simpl.
  - by destruct (String.eqb_spec (Order.id row) other).
  - by rewrite IH.
Qed.

Lemma created_lookup fullYear data db db' out :
  wellFormed db ->
  OrderService.createOrder fullYear data db = (db', Ok out) ->
  order_findUnique (Order.id (OrderWithRelations.order out)) db' = Some out.
Proof.
  intros Hwf Hcall.
  destruct (created_view _ _ _ _ _ Hwf Hcall) as (_ & Hid & _ & Ho).
  destruct (createOrder_inv _ _ _ _ _ Hcall) as (_ & _ & Hout).
  unfold order_findUnique, order_findRow.
  rewrite Ho, Hid, (find_appended _ _ _ (wf_orders_not_next db Hwf) Hid).
  simpl. f_equal. by rewrite Hout.
Qed.

Lemma updated_lookup id data db db' out :
  OrderService.updateOrder id data db = (db', Ok out) ->
  order_findUnique id db' = Some out.
Proof.
  intros Hcall. unfold order_findUnique.
  destruct (UpdateOrderInput.items data) as [items|] eqn:Hitems.
  - destruct (replaced_view _ _ _ _ _ _ Hitems Hcall)
      as (o & _ & _ & _ & _ & ->).
    destruct (updateOrder_items_inv _ _ _ _ _ _ Hitems Hcall)
      as (o' & _ & _ & Hout).
    simpl. f_equal. by rewrite Hout.
  - destruct (plain_view _ _ _ _ _ Hitems Hcall)
      as (o & _ & _ & _ & _ & _ & _ & _ & ->).
    destruct (updateOrder_plain_inv _ _ _ _ _ Hitems Hcall)
      as (o' & _ & _ & Hout).
    simpl. f_equal. by rewrite Hout.
Qed.

Lemma deleted_lookup id db db' :
  OrderService.deleteOrder id db = (db', Ok tt) ->
  order_findRow id db' = None.
Proof.
  intros Hcall. destruct (deleteOrder_inv _ _ _ Hcall) as [_ ->].
  apply find_filter_removed.
Qed.

(** X10. A read by id shows the last write. After a creation, GET with the
    new order's id answers 200 with exactly the order the creation returned;
    after an update, GET with that id answers 200 with exactly the order the
    update returned; after a deletion, GET with that id answers 404 "Order
    not found". *)
Theorem reads_show_the_last_write (db : Store) :
  wellFormed db ->
  let found (out : OrderWithRelations.t) : OrderController.Res :=
    HttpResponse.mk 200
      (ApiResponse.mk true "Order retrieved successfully" (Some out) None
         None) in
  (forall fullYear data db' out,
     OrderService.createOrder fullYear data db = (db', Ok out) ->
     OrderService.getOrderById (Order.id (OrderWithRelations.order out)) db'
     = Ok out
     /\ OrderController.getOrderById
          (Order.id (OrderWithRelations.order out)) db' = found out)
  /\ (forall id data db' out,
        OrderService.updateOrder id data db = (db', Ok out) ->
        OrderService.getOrderById id db' = Ok out
        /\ OrderController.getOrderById id db' = found out)
  /\ (forall id db',
        OrderService.deleteOrder id db = (db', Ok tt) ->
        OrderService.getOrderById id db' = Throw "Order not found"
        /\ OrderController.getOrderById id db'
           = refusal 404 "Order not found").
Proof.
  intros Hwf found.
  unfold OrderController.getOrderById, OrderService.getOrderById.
  split; [|split].
  - intros y data db' out Hcall.
    by rewrite (created_lookup _ _ _ _ _ Hwf Hcall).
  - intros id data db' out Hcall. by rewrite (updated_lookup _ _ _ _ _ Hcall).
  - intros id db' Hcall.
    by rewrite (order_findUnique_absent _ _ (deleted_lookup _ _ _ Hcall)).
Qed.

Lemma reads_show_the_last_write_witness :
  OrderController.getOrderById "c2" oneOrder
  = HttpResponse.mk 200
      (ApiResponse.mk true "Order retrieved successfully"
         (order_findUnique "c2" oneOrder) None None)
  /\ OrderController.getOrderById "c2" secondOnly
     = refusal 404 "Order not found".
Proof.
  destruct (reads_show_the_last_write seeded seeded_wellFormed)
    as (Hcreate & _ & _).
  destruct (reads_show_the_last_write twoOrders (seeded_runs _ twoOrders_run))
    as (_ & _ & Hdelete).
  split.
  - destruct (Hcreate 2024%N laptopAndMice oneOrder _ eq_refl) as [_ Hget].
    exact Hget.
  - destruct (Hdelete "c2" secondOnly eq_refl) as [_ Hget]. exact Hget.
Defined.

Lemma filter_keeps_all {A} (P : A -> Prop) `{!forall x, Decision (P x)}
    (l : list A) :
  Forall P l -> filter P l = l.
Proof.
  induction 1 as [|x l Hx _ IH]; [done|].
  rewrite filter_cons_True by done. by rewrite IH.
Qed.

Lemma length_filter_one id (rows : list Order.t) x :
  NoDup (Order.id <$> rows) -> x ∈ rows -> Order.id x = id ->
  (length (filter (fun o => Order.id o ≠ id) rows) + 1 = length rows)%nat.
Proof.
  intros Hnd Hin Hx. induction rows as [|y rows IH].
  { by apply elem_of_nil in Hin. }
  rewrite fmap_cons in Hnd. apply list.NoDup_cons in Hnd as [Hy Hnd].
  rewrite filter_cons.
  apply elem_of_cons in Hin as [->|Hin].
  - destruct (decide (Order.id y ≠ id)) as [Hne|_]; [done|]. simpl.
    rewrite filter_keeps_all; [lia|].
    apply list.Forall_forall. intros z Hz E. apply Hy.
    rewrite Hx, <- E. apply list_elem_of_fmap. by exists z.
  - destruct (decide (Order.id y ≠ id)) as [Hne|He]; simpl.
    + rewrite <- (IH Hnd Hin). lia.
    + exfalso. apply Hy. apply dec_stable in He. rewrite He, <- Hx.
      apply list_elem_of_fmap. by exists x.
Qed.

(** X11. Deleting an order either throws "Order not found" and changes
    nothing (exactly when no order has the id), or removes the order
    together with every item row that refers to it: afterwards no row of
    the item table names the order, every other order reads exactly as
    before, customers and users are untouched, deleting the same id again
    throws, and in a well-formed store the count of orders has gone down by
    one. *)
Theorem deleteOrder_effect (id : string) (db : Store) :
  exists db' res,
    OrderService.deleteOrder id db = (db', res)
    /\ match res with
       | Ok _ =>
           is_Some (order_findRow id db)
           /\ order_findRow id db' = None
           /\ Forall (fun it => OrderItem.orderId it ≠ id) (orderItems db')
           /\ (forall other, other ≠ id ->
                 order_findUnique other db' = order_findUnique other db)
           /\ customers db' = customers db
           /\ users db' = users db
           /\ OrderService.deleteOrder id db' = (db', Throw "Order not found")
           /\ (wellFormed db -> (order_count db' + 1 = order_count db)%N)
       | Throw message =>
           db' = db /\ message = "Order not found"
           /\ order_findRow id db = None
       end.
Proof.
  destruct (OrderService.deleteOrder id db) as [db' res] eqn:Hcall.
  exists db', res. split; [done|]. destruct res as [[]|message].
  - pose proof (deleted_lookup _ _ _ Hcall) as Hgone.
    destruct (deleteOrder_inv _ _ _ Hcall) as [Hsome Hdb].
    split; [exact Hsome|]. split; [exact Hgone|]. split.
    { rewrite Hdb. simpl. apply list.Forall_forall.
      by intros it [? _]%list_elem_of_filter. }
    split.
    { intros other Hne. rewrite Hdb.
      unfold order_findUnique, order_findRow. simpl.
      rewrite (find_filter_other _ _ _ Hne).
      destruct (find _ (orders db)) as [o|] eqn:Hf; [|done]. simpl.
      apply find_some in Hf as [_ Ho%String.eqb_eq].
      unfold include, itemsOf, customer_findUnique. simpl. f_equal.
      rewrite Ho. by rewrite (filter_after_removal_other id other). }
    split; [by rewrite Hdb|]. split; [by rewrite Hdb|]. split.
    { unfold OrderService.deleteOrder, order_delete. by rewrite Hgone. }
    intros Hwf. destruct Hsome as [o Ho].
    destruct (order_findRow_Some _ _ _ Ho) as [Hin Hid].
    rewrite Hdb. unfold order_count. simpl.
    pose proof (length_filter_one id (orders db) o (wf_order_ids _ Hwf)
                  Hin Hid). lia.
  - unfold OrderService.deleteOrder, order_delete in Hcall.
    destruct (order_findRow id db); [discriminate|].
    by injection Hcall as <- <-.
Qed.

(** X12. An update, with or without items, cannot move an order: looked up
    by any id, the order found after the call has the id, the order number
    and the customer of the one found before. The count of orders, the
    customers and the users are those from before the call. *)
Theorem updates_keep_identity
    (id : string) (data : UpdateOrderInput.t) (db db' : Store)
    (out : OrderWithRelations.t) :
  OrderService.updateOrder id data db = (db', Ok out) ->
  (forall any,
     orderKeys <$> order_findRow any db' = orderKeys <$> order_findRow any db)
  /\ order_count db' = order_count db
  /\ customers db' = customers db
  /\ users db' = users db.
Proof.
  intros Hcall.
  destruct (updateOrder_rows _ _ _ _ _ Hcall) as (o & Hin & Hnr & Hid & Ho).
  assert (Hfound : exists f, order_findRow id db = Some f
                             /\ orderKeys (OrderWithRelations.order out)
                                = orderKeys f).
  { destruct (UpdateOrderInput.items data) as [items|] eqn:Hitems.
    - destruct (replaced_view _ _ _ _ _ _ Hitems Hcall)
        as (f & Hf & _ & Hrow & _).
      exists f. split; [done|]. rewrite Hrow. unfold orderKeys. simpl.
      by destruct (order_findRow_Some _ _ _ Hf) as [_ ->].
    - destruct (plain_view _ _ _ _ _ Hitems Hcall) as (f & Hf & Hrow & _).
      exists f. split; [done|]. rewrite Hrow. unfold orderKeys. simpl.
      by destruct (order_findRow_Some _ _ _ Hf) as [_ ->]. }
  destruct Hfound as (f & Hf & Hkeys).
  assert (Hrest : customers db' = customers db /\ users db' = users db).
  { destruct (UpdateOrderInput.items data) as [items|] eqn:Hitems.
    - by destruct (updateOrder_items_inv _ _ _ _ _ _ Hitems Hcall)
        as (? & _ & -> & _).
    - by destruct (updateOrder_plain_inv _ _ _ _ _ Hitems Hcall)
        as (? & _ & -> & _). }
  split; [|split; [|exact Hrest]].
  - intros any. unfold order_findRow. rewrite Ho.
    destruct (decide (any = id)) as [->|Hne].
    + rewrite (find_replaceRow_same id _ (orders db) f Hid Hf).
      unfold order_findRow in Hf. rewrite Hf. simpl. by rewrite Hkeys.
    + by rewrite (find_replaceRow_other id any _ (orders db) Hid Hne).
  - unfold order_count. by rewrite Ho, length_map.
Qed.

Lemma updates_keep_identity_witness :
  orderKeys <$> order_findRow "c2" (fst (OrderService.updateOrder "c2" oneCable oneOrder))
  = Some ("c2", "ORD-2024-000001", "c1").
Proof.
  destruct (updates_keep_identity "c2" oneCable oneOrder _ _ eq_refl)
    as (Hkeys & _).
  exact (Hkeys "c2").
Defined.

(** X13. Sending the same update twice is harmless for what the update
    writes. The second call succeeds and returns an order with the
    identifier, number and customer of the first answer and with the same
    status, notes and totalAmount; its items have the same content in the
    same order. Without items in the input the second call leaves every
    item row as it was and returns the same rows and the same customer.
    (The columns the store stamps by itself are not part of this.) *)
Theorem repeated_update_is_harmless
    (id : string) (data : UpdateOrderInput.t) (db db1 : Store)
    (out1 : OrderWithRelations.t) :
  OrderService.updateOrder id data db = (db1, Ok out1) ->
  exists db2 out2,
    OrderService.updateOrder id data db1 = (db2, Ok out2)
    /\ (let first := OrderWithRelations.order out1 in
        let second := OrderWithRelations.order out2 in
        Order.id second = Order.id first
        /\ Order.orderNumber second = Order.orderNumber first
        /\ Order.customerId second = Order.customerId first
        /\ Order.status second = Order.status first
        /\ Order.notes second = Order.notes first
        /\ Order.totalAmount second = Order.totalAmount first)
    /\ map inputOf (OrderWithRelations.items out2)
       = map inputOf (OrderWithRelations.items out1)
    /\ (UpdateOrderInput.items data = None ->
        orderItems db2 = orderItems db1
        /\ OrderWithRelations.items out2 = OrderWithRelations.items out1
        /\ OrderWithRelations.customer out2
           = OrderWithRelations.customer out1).
Proof.
  intros Hcall.
  assert (Hrow1 : order_findRow id db1 = Some (OrderWithRelations.order out1)).
  { pose proof (updated_lookup _ _ _ _ _ Hcall) as H.
    unfold order_findUnique in H.
    destruct (order_findRow id db1) as [r|]; [|discriminate].
    simpl in H. injection H as <-. done. }
  destruct (updateOrder_succeeds id data db1 ltac:(by eexists))
    as (db2 & out2 & Hcall2).
  exists db2, out2. split; [exact Hcall2|].
  destruct (UpdateOrderInput.items data) as [items|] eqn:Hitems.
  - destruct (replaced_view _ _ _ _ _ _ Hitems Hcall)
      as (o & _ & Hrows1 & Hr1 & _).
    destruct (replaced_view _ _ _ _ _ _ Hitems Hcall2)
      as (o2 & Ho2 & Hrows2 & Hr2 & _).
    rewrite Hrow1 in Ho2. injection Ho2 as <-.
    split; [|split; [|done]].
    + rewrite Hr2, Hr1. simpl. repeat (split; [done|]). split.
      * by destruct (UpdateOrderInput.status data).
      * split; [|done]. by destruct (UpdateOrderInput.notes data).
    + rewrite Hrows1, Hrows2.
      destruct (createItems_rows id (nextId db) items) as [-> _].
      by destruct (createItems_rows id (nextId db1) items) as [-> _].
  - destruct (plain_view _ _ _ _ _ Hitems Hcall)
      as (o & _ & Hr1 & Hi1 & _ & Hrows1 & Hc1 & _).
    destruct (plain_view _ _ _ _ _ Hitems Hcall2)
      as (o2 & Ho2 & Hr2 & Hi2 & _ & Hrows2 & Hc2 & _).
    rewrite Hrow1 in Ho2. injection Ho2 as <-.
    destruct (updateOrder_plain_inv _ _ _ _ _ Hitems Hcall)
      as (o' & _ & _ & Hout1).
    destruct (updateOrder_plain_inv _ _ _ _ _ Hitems Hcall2)
      as (o2' & Ho2' & _ & Hout2).
    rewrite Hrow1 in Ho2'. injection Ho2' as <-.
    assert (Hcid : Order.customerId (OrderWithRelations.order out1)
                   = Order.customerId o') by (by rewrite Hout1).
    assert (Hcust1 : OrderWithRelations.customer out1
                     = customer_findUnique (Order.customerId o') db1)
      by (by rewrite Hout1).
    assert (Hitems12 : OrderWithRelations.items out2
                       = OrderWithRelations.items out1).
    { rewrite Hi2, Hi1. unfold itemsOf. by rewrite Hrows1. }
    split; [|split; [by rewrite Hitems12|]].
    + rewrite Hr2. simpl. rewrite Hr1. simpl. repeat (split; [done|]). split.
      * by destruct (UpdateOrderInput.status data).
      * split; [|done]. by destruct (UpdateOrderInput.notes data).
    + intros _. split; [exact Hrows2|]. split; [exact Hitems12|].
      rewrite Hcust1, Hout2. unfold include, customer_findUnique. simpl.
      by rewrite Hc2, Hcid.
Qed.

Lemma repeated_update_is_harmless_witness :
  let db1 := fst (OrderService.updateOrder "c2" oneCable oneOrder) in
  exists db2 out2,
    OrderService.updateOrder "c2" oneCable db1 = (db2, Ok out2)
    /\ Order.status (OrderWithRelations.order out2) = SHIPPED
    /\ Order.totalAmount (OrderWithRelations.order out2)
       = (0 + 3 * 0.1)%float
    /\ map inputOf (OrderWithRelations.items out2)
       = [OrderItemInput.mk "Cable" 3%float 0.1%float].
Proof.
  destruct (repeated_update_is_harmless "c2" oneCable oneOrder _ _ eq_refl)
    as (db2 & out2 & Hcall & (_ & _ & _ & Hstatus & _ & Htotal) & Hitems & _).
  exists db2, out2. split; [exact Hcall|].
  split; [exact Hstatus|]. split; [exact Htotal|exact Hitems].
Defined.

(** X14. A creation only adds. In a well-formed store the new order is the
    last row of the order table after all the former ones, its item rows
    come after all the former item rows, its identifier is new, and every
    other order reads exactly as before; customers and users are untouched.
    The order has the input's customer, its notes, and its status, which is
    PENDING when the input has none; the customer returned with it is the
    one looked up before the write. *)
Theorem creation_only_adds
    (fullYear : N) (data : CreateOrderInput.t) (db db' : Store)
    (out : OrderWithRelations.t) :
  wellFormed db ->
  OrderService.createOrder fullYear data db = (db', Ok out) ->
  let order := OrderWithRelations.order out in
  orders db' = (orders db ++ [order])%list
  /\ orderItems db' = (orderItems db ++ OrderWithRelations.items out)%list
  /\ Forall (fun o => Order.id o ≠ Order.id order) (orders db)
  /\ (forall other, other ≠ Order.id order ->
        order_findUnique other db' = order_findUnique other db)
  /\ customers db' = customers db
  /\ users db' = users db
  /\ Order.customerId order = CreateOrderInput.customerId data
  /\ Order.notes order = CreateOrderInput.notes data
  /\ Order.status order = default PENDING (CreateOrderInput.status data)
  /\ is_Some (OrderWithRelations.customer out)
  /\ OrderWithRelations.customer out
     = customer_findUnique (CreateOrderInput.customerId data) db.
Proof.
  intros Hwf Hcall order.
  destruct (created_view _ _ _ _ _ Hwf Hcall) as (Hrows & Hid & _ & Ho).
  destruct (createOrder_inv _ _ _ _ _ Hcall) as (Hsome & Hdb & Hout).
  pose proof (wf_orders_not_next db Hwf) as Hfresh.
  assert (Horder : order
                   = Order.mk (cuid (nextId db))
                       (OrderService.orderNumber fullYear (order_count db))
                       (default PENDING (CreateOrderInput.status data))
                       (OrderService.totalOf (CreateOrderInput.items data))
                       (CreateOrderInput.notes data)
                       (CreateOrderInput.customerId data)).
  { unfold order. by rewrite Hout. }
  split; [exact Ho|]. split.
  { rewrite Hrows, Hdb. reflexivity. }
  split. { unfold order. by rewrite Hid. }
  split.
  { intros other Hne. unfold order_findUnique, order_findRow.
    rewrite Ho, find_appended_other by (fold order; congruence).
    destruct (find _ (orders db)) as [o|] eqn:Hf; [|done]. simpl.
    apply find_some in Hf as [_ Hoid%String.eqb_eq].
    assert (Hc : customers db' = customers db) by (by rewrite Hdb).
    assert (Hi : itemsOf (Order.id o) db' = itemsOf (Order.id o) db).
    { rewrite Hoid. apply (created_old_items _ _ _ _ _ Hcall).
      unfold order in Hne. by rewrite Hid in Hne. }
    unfold include, customer_findUnique. by rewrite Hc, Hi. }
  split; [by rewrite Hdb|]. split; [by rewrite Hdb|].
  rewrite Horder. simpl. repeat (split; [done|]).
  assert (Hc : OrderWithRelations.customer out
               = customer_findUnique (CreateOrderInput.customerId data) db).
  { rewrite Hout. unfold include, customer_findUnique. simpl.
    by rewrite Hdb. }
  split; [by rewrite Hc|exact Hc].
Qed.

Lemma creation_only_adds_witness :
  exists out,
    OrderService.createOrder 2024 laptopAndMice oneOrder = (twoOrders, Ok out)
    /\ order_findUnique "c2" twoOrders = order_findUnique "c2" oneOrder
    /\ Order.status (OrderWithRelations.order out) = PENDING.
Proof.
  eexists. split; [reflexivity|].
  destruct (creation_only_adds 2024 laptopAndMice oneOrder twoOrders _
              (seeded_runs _ oneOrder_run) eq_refl)
    as (_ & _ & _ & Hother & _ & _ & _ & _ & Hstatus & _).
  split; [|exact Hstatus]. apply Hother. discriminate.
Defined.

(** X15. Two creations in a row, with no other call between them, get
    consecutive sequence numbers, whatever the years and the inputs: the
    digits after the last dash of the second number denote one more than
    those of the first, and the two numbers differ. *)
Theorem consecutive_creations_number_consecutively
    (year1 year2 : N) (data1 data2 : CreateOrderInput.t)
    (db db1 db2 : Store) (out1 out2 : OrderWithRelations.t) :
  OrderService.createOrder year1 data1 db = (db1, Ok out1) ->
  OrderService.createOrder year2 data2 db1 = (db2, Ok out2) ->
  exists sequence1 sequence2,
    Order.orderNumber (OrderWithRelations.order out1)
    = "ORD-" +:+ Js.toString year1 +:+ "-" +:+ sequence1
    /\ Order.orderNumber (OrderWithRelations.order out2)
       = "ORD-" +:+ Js.toString year2 +:+ "-" +:+ sequence2
    /\ allDigits sequence1 = true /\ allDigits sequence2 = true
    /\ decimalValue sequence2 = (decimalValue sequence1 + 1)%N
    /\ Order.orderNumber (OrderWithRelations.order out1)
       ≠ Order.orderNumber (OrderWithRelations.order out2).
Proof.
  intros Hcall1 Hcall2.
  destruct (createOrder_inv _ _ _ _ _ Hcall1) as (_ & Hdb1 & Hout1).
  destruct (createOrder_inv _ _ _ _ _ Hcall2) as (_ & _ & Hout2).
  assert (Hcount : order_count db1 = (order_count db + 1)%N).
  { rewrite Hdb1. unfold order_count. simpl. rewrite length_app. simpl. lia. }
  destruct (sequence_facts (order_count db + 1)) as (Hd1 & Hv1 & _).
  destruct (sequence_facts (order_count db1 + 1)) as (Hd2 & Hv2 & _).
  simpl in Hd1, Hv1, Hd2, Hv2.
  exists (Js.padStart 6 "0" (Js.toString (order_count db + 1))),
    (Js.padStart 6 "0" (Js.toString (order_count db1 + 1))).
  assert (H1 : Order.orderNumber (OrderWithRelations.order out1)
               = OrderService.orderNumber year1 (order_count db))
    by (by rewrite Hout1).
  assert (H2 : Order.orderNumber (OrderWithRelations.order out2)
               = OrderService.orderNumber year2 (order_count db1))
    by (by rewrite Hout2).
  split; [exact H1|]. split; [exact H2|].
  split; [exact Hd1|]. split; [exact Hd2|]. split; [rewrite Hv1, Hv2; lia|].
  rewrite H1, H2. intros E. apply orderNumber_inj in E as [_ E]. lia.
Qed.

Lemma consecutive_creations_number_consecutively_witness :
  exists db2 out1 out2,
    OrderService.createOrder 2024 laptopAndMice seeded = (oneOrder, Ok out1)
    /\ OrderService.createOrder 2025 laptopAndMice oneOrder = (db2, Ok out2)
    /\ Order.orderNumber (OrderWithRelations.order out1)
       ≠ Order.orderNumber (OrderWithRelations.order out2).
Proof.
  eexists _, _, _. split; [reflexivity|]. split; [reflexivity|].
  destruct (consecutive_creations_number_consecutively 2024 2025
              laptopAndMice laptopAndMice seeded oneOrder _ _ _
              eq_refl eq_refl) as (s1 & s2 & _ & _ & _ & _ & _ & Hne).
  exact Hne.
Defined.

(** ** Customers *)

Lemma customer_findUnique_Some id db c :
  customer_findUnique id db = Some c -> c ∈ customers db /\ Customer.id c = id.
Proof.
  unfold customer_findUnique. intros H. apply find_some in H as [Hin He].
  split; [by apply list_elem_of_In|by apply String.eqb_eq].
Qed.

Lemma customer_find_filter_removed id (rows : list Customer.t) :
  find (fun c => String.eqb (Customer.id c) id)
    (filter (fun c => Customer.id c ≠ id) rows) = None.
Proof.
  induction rows as [|x rows IH]; [done|]. rewrite filter_cons.
  destruct (decide (Customer.id x ≠ id)) as [Hne|_]; [|exact IH].
  simpl. by destruct (String.eqb_spec (Customer.id x) id).
Qed.

Lemma customer_find_filter_other id other (rows : list Customer.t) :
  other ≠ id ->
  find (fun c => String.eqb (Customer.id c) other)
    (filter (fun c => Customer.id c ≠ id) rows)
  = find (fun c => String.eqb (Customer.id c) other) rows.
Proof.
  intros Hne. induction rows as [|x rows IH]; [done|]. rewrite filter_cons.
  destruct (decide (Customer.id x ≠ id)) as [Hx|Hx]; simpl.
  - by rewrite IH.
  - destruct (String.eqb_spec (Customer.id x) other) as [E|_]; [|exact IH].
    exfalso. apply Hx. congruence.
Qed.




Lemma replaceCustomer_hit id row x :
  Customer.id x = id -> replaceCustomer id row x = row.
Proof. unfold replaceCustomer. intros ->. by rewrite String.eqb_refl. Qed.

Lemma replaceCustomer_miss id row x :
  Customer.id x ≠ id -> replaceCustomer id row x = x.
Proof.
  unfold replaceCustomer. intros H.
  by destruct (String.eqb_spec (Customer.id x) id).
Qed.

Lemma find_replaceCustomer_other id other row (rows : list Customer.t) :
  Customer.id row = id -> other ≠ id ->
  find (fun c => String.eqb (Customer.id c) other)
    (map (replaceCustomer id row) rows)
  = find (fun c => String.eqb (Customer.id c) other) rows.
Proof.
  intros Hrow Hne. induction rows as [|x rows IH]; [done|]. simpl.
  destruct (decide (Customer.id x = id)) as [E|E].
  - rewrite (replaceCustomer_hit _ _ _ E), Hrow.
    destruct (String.eqb_spec id other) as [E'|_]; [congruence|].
    destruct (String.eqb_spec (Customer.id x) other) as [E'|_];
      [congruence|].
    exact IH.
  - rewrite (replaceCustomer_miss _ _ _ E).
    destruct (String.eqb (Customer.id x) other); [done|exact IH].
Qed.

Lemma find_replaceCustomer_same id row (rows : list Customer.t) c :
  Customer.id row = id ->
  find (fun c => String.eqb (Customer.id c) id) rows = Some c ->
  find (fun c => String.eqb (Customer.id c) id)
    (map (replaceCustomer id row) rows) = Some row.
Proof.
  intros Hrow. induction rows as [|x rows IH]; [done|]. simpl.
  destruct (decide (Customer.id x = id)) as [E|E].
  - rewrite (replaceCustomer_hit _ _ _ E), Hrow, String.eqb_refl. done.
  - rewrite (replaceCustomer_miss _ _ _ E).
    destruct (String.eqb_spec (Customer.id x) id) as [E'|_]; [done|].
    exact IH.
Qed.

Lemma ownedBy_false id db orderId :
  ownedBy id db orderId = false <->
  forall o, o ∈ orders db -> Order.id o = orderId -> Order.customerId o ≠ id.
Proof.
  unfold ownedBy. split.
  - intros H o Hin Hid Hc.
    assert (existsb
              (fun o => String.eqb (Order.id o) orderId
                        && String.eqb (Order.customerId o) id)
              (orders db) = true); [|congruence].
    apply existsb_exists. exists o. split; [by apply list_elem_of_In|].
    rewrite Hid, Hc, !String.eqb_refl. done.
  - intros H.
    destruct (existsb _ (orders db)) eqn:E; [|done]. exfalso.
    apply existsb_exists in E as (o & Hin & Ho).
    apply andb_true_iff in Ho as [Hid%String.eqb_eq Hc%String.eqb_eq].
    apply list_elem_of_In in Hin. by apply (H o Hin Hid).
Qed.

Lemma filter_filter_implied {A} (P Q : A -> Prop)
    `{!forall x, Decision (P x)} `{!forall x, Decision (Q x)} (l : list A) :
  (forall x, x ∈ l -> P x -> Q x) -> filter P (filter Q l) = filter P l.
Proof.
  induction l as [|x l IH]; intros Himp; [done|].
  assert (IH' : filter P (filter Q l) = filter P l).
  { apply IH. intros y Hy. apply Himp. by right. }
  rewrite (filter_cons Q).
  destruct (decide (Q x)) as [Hq|Hq].
  - rewrite !(filter_cons P). by rewrite IH'.
  - rewrite (filter_cons P).
    destruct (decide (P x)) as [Hp|Hp]; [|exact IH'].
    exfalso. apply Hq, Himp; [by left|done].
Qed.

Lemma deleteCustomer_inv id db db' result :
  CustomerService.deleteCustomer id db = (db', Ok result) ->
  is_Some (customer_findUnique id db)
  /\ CustomerService.DeleteResult.deletedOrdersCount result
     = customer_orderCount id db
  /\ db' = mkStore (users db)
             (filter (fun c => Customer.id c ≠ id) (customers db))
             (filter (fun o => Order.customerId o ≠ id) (orders db))
             (filter (fun it => ownedBy id db (OrderItem.orderId it) = false)
                (orderItems db))
             (nextId db).
Proof.
  unfold CustomerService.deleteCustomer, customer_delete.
  destruct (customer_findUnique id db) as [c|]; [|discriminate].
  intros [= <- <-]. by split; [eexists|].
Qed.

Lemma deleteCustomer_fails id db db' message :
  CustomerService.deleteCustomer id db = (db', Throw message) ->
  db' = db /\ message = "Customer not found"
  /\ customer_findUnique id db = None.
Proof.
  unfold CustomerService.deleteCustomer, customer_delete.
  destruct (customer_findUnique id db) as [c|]; [discriminate|].
  by intros [= <- <-].
Qed.

Lemma survivors_keep_items id db o :
  NoDup (Order.id <$> orders db) ->
  o ∈ orders db -> Order.customerId o ≠ id ->
  filter (fun it => OrderItem.orderId it = Order.id o)
    (filter (fun it => ownedBy id db (OrderItem.orderId it) = false)
       (orderItems db))
  = itemsOf (Order.id o) db.
Proof.
  intros Hnd Hin Hc. unfold itemsOf. apply filter_filter_implied.
  intros it _ Hit. apply ownedBy_false. intros o' Hin' Hid'.
  assert (o' = o); [|by subst].
  apply (NoDup_fmap_unique Order.id (orders db)); [done..|congruence].
Qed.

(** X16. Deleting a customer either throws "Customer not found" and changes
    nothing (exactly when no customer has the id; the handler then answers
    404), or removes the customer together with all of its orders and their
    items. The count it reports is exactly the number of orders that
    disappeared; afterwards no order names the customer, no item row names
    a removed order, the customer cannot be found, every other customer is
    found as before and every order of another customer is still there. In
    a well-formed store those orders keep their items. The handler answers
    200, naming the count when there was at least one order. *)
Theorem deleteCustomer_effect (id : string) (db : Store) :
  exists db' res,
    CustomerService.deleteCustomer id db = (db', res)
    /\ match res with
       | Ok result =>
           let count :=
             CustomerService.DeleteResult.deletedOrdersCount result in
           is_Some (customer_findUnique id db)
           /\ (order_count db' + count = order_count db)%N
           /\ Forall (fun o => Order.customerId o ≠ id) (orders db')
           /\ (forall it o,
                 it ∈ orderItems db' -> o ∈ orders db ->
                 Order.customerId o = id ->
                 OrderItem.orderId it ≠ Order.id o)
           /\ customer_findUnique id db' = None
           /\ (forall other, other ≠ id ->
                 customer_findUnique other db' = customer_findUnique other db)
           /\ (forall o, o ∈ orders db -> Order.customerId o ≠ id ->
                 o ∈ orders db')
           /\ (wellFormed db ->
               forall o, o ∈ orders db' ->
                 itemsOf (Order.id o) db' = itemsOf (Order.id o) db)
           /\ users db' = users db
           /\ CustomerController.deleteCustomer id db
              = (db',
                 HttpResponse.mk 200
                   (ApiResponse.mk true
                      (if (0 <? count)%N
                       then "Customer and " +:+ Js.toString count
                              +:+ " associated orders deleted successfully"
                       else "Customer deleted successfully")
                      None None None))
       | Throw message =>
           db' = db /\ message = "Customer not found"
           /\ customer_findUnique id db = None
           /\ CustomerController.deleteCustomer id db
              = (db, refusal 404 "Customer not found")
       end.
Proof.
  destruct (CustomerService.deleteCustomer id db) as [db' res] eqn:Hcall.
  exists db', res. split; [done|]. destruct res as [result|message].
  - destruct (deleteCustomer_inv _ _ _ _ Hcall) as (Hsome & Hcount & Hdb).
    simpl. split; [exact Hsome|]. split.
    { rewrite Hcount, Hdb. unfold order_count, customer_orderCount. simpl.
      pose proof (filter_app_complement
                    (fun o => Order.customerId o = id) (orders db)) as Hp.
      apply Permutation_length in Hp. rewrite length_app in Hp. lia. }
    split.
    { rewrite Hdb. simpl. apply list.Forall_forall.
      by intros o [? _]%list_elem_of_filter. }
    split.
    { rewrite Hdb. simpl. intros it o [Hown _]%list_elem_of_filter Hin Hc E.
      by apply (proj1 (ownedBy_false id db _) Hown o Hin). }
    split.
    { rewrite Hdb. unfold customer_findUnique. simpl.
      apply customer_find_filter_removed. }
    split.
    { intros other Hne. rewrite Hdb. unfold customer_findUnique. simpl.
      by apply customer_find_filter_other. }
    split.
    { intros o Hin Hc. rewrite Hdb. simpl. by apply list_elem_of_filter. }
    split.
    { intros Hwf o. rewrite Hdb. simpl.
      intros [Hc Hin]%list_elem_of_filter. unfold itemsOf at 1. simpl.
      by apply survivors_keep_items; [apply (wf_order_ids _ Hwf)|..]. }
    split; [by rewrite Hdb|].
    unfold CustomerController.deleteCustomer. by rewrite Hcall.
  - destruct (deleteCustomer_fails _ _ _ _ Hcall) as (-> & -> & Hnone).
    repeat (split; [done|]).
    unfold CustomerController.deleteCustomer. by rewrite Hcall.
Qed.

Lemma deleteCustomer_effect_witness :
  exists db',
    CustomerController.deleteCustomer "c1" twoOrders
    = (db',
       HttpResponse.mk 200
         (ApiResponse.mk true
            "Customer and 2 associated orders deleted successfully"
            None None None))
    /\ orders db' = [] /\ orderItems db' = [].
Proof.
  destruct (deleteCustomer_effect "c1" twoOrders)
    as (db' & res & Hcall & Hres).
  vm_compute in Hcall. injection Hcall as <- <-.
  destruct Hres as (_ & _ & _ & _ & _ & _ & _ & _ & _ & Hctl).
  eexists. split; [exact Hctl|]. split; reflexivity.
Defined.

Lemma emailOfAnother_true id email db :
  emailOfAnother id email db = true <->
  exists other,
    other ∈ customers db /\ Customer.id other ≠ id
    /\ Customer.email other = email.
Proof.
  unfold emailOfAnother. rewrite existsb_exists. split.
  - intros (c & Hin & Hc). apply andb_true_iff in Hc as [Hid He].
    exists c. split; [by apply list_elem_of_In|].
    split; [|by apply String.eqb_eq].
    intros E. rewrite E, String.eqb_refl in Hid. discriminate Hid.
  - intros (c & Hin & Hid & He). exists c.
    split; [by apply list_elem_of_In|].
    apply andb_true_iff. split; [|by apply String.eqb_eq].
    by destruct (String.eqb_spec (Customer.id c) id).
Qed.

Lemma emailOfAnother_false id email db :
  emailOfAnother id email db = false <->
  forall other,
    other ∈ customers db -> Customer.id other ≠ id ->
    Customer.email other ≠ email.
Proof.
  split.
  - intros Hfree other Hin Hid He.
    assert (emailOfAnother id email db = true); [|congruence].
    apply emailOfAnother_true. by exists other.
  - intros Hfree. destruct (emailOfAnother id email db) eqn:E; [|done].
    apply emailOfAnother_true in E as (other & Hin & Hid & He).
    by destruct (Hfree other Hin Hid).
Qed.

Lemma updateCustomer_inv id data db db' updated :
  CustomerService.updateCustomer id data db = (db', Ok updated) ->
  exists before,
    customer_findUnique id db = Some before
    /\ (forall email,
          UpdateCustomerInput.email data = Some email ->
          emailOfAnother id email db = false)
    /\ updated = applyCustomerUpdate data before
    /\ db' = mkStore (users db)
               (map (replaceCustomer id updated) (customers db))
               (orders db) (orderItems db) (nextId db).
Proof.
  unfold CustomerService.updateCustomer, customer_update.
  destruct (customer_findUnique id db) as [c|]; [|discriminate].
  destruct (UpdateCustomerInput.email data) as [email|].
  - destruct (emailOfAnother id email db) eqn:Hfree; [discriminate|].
    intros [= <- <-]. exists c. split; [done|]. split; [|done].
    by intros ? [= <-].
  - intros [= <- <-]. by exists c.
Qed.

Lemma updateCustomer_fails id data db db' message :
  CustomerService.updateCustomer id data db = (db', Throw message) ->
  db' = db /\ message = "Customer not found"
  /\ (customer_findUnique id db = None
      \/ exists email,
           UpdateCustomerInput.email data = Some email
           /\ emailOfAnother id email db = true).
Proof.
  unfold CustomerService.updateCustomer, customer_update.
  destruct (customer_findUnique id db) as [c|].
  - destruct (UpdateCustomerInput.email data) as [email|];
      [|discriminate].
    destruct (emailOfAnother id email db) eqn:Htaken; [|discriminate].
    intros [= <- <-]. split; [done|]. split; [done|]. right. by exists email.
  - intros [= <- <-]. split; [done|]. split; [done|]. by left.
Qed.

(** X17. Updating a customer either merges the input into the stored
    customer or throws "Customer not found" and changes nothing. It merges
    when a customer has the id and no other customer holds the email the
    input carries: a field the input has takes the input's value, a field
    it lacks keeps the stored one, the id never changes; afterwards the
    customer is found under its id as returned, every other customer is
    found as before, orders, items and users are untouched, and an order of
    this customer read back shows the updated customer. It throws when no
    customer has the id, and also when the customer exists but the input's
    email is held by another customer: the service rethrows the client's
    refusal under the same message, and the handler answers 404 "Customer
    not found" in both cases. *)
Theorem updateCustomer_effect
    (id : string) (data : UpdateCustomerInput.t) (db : Store) :
  exists db' res,
    CustomerService.updateCustomer id data db = (db', res)
    /\ match res with
       | Ok updated =>
           exists before,
             customer_findUnique id db = Some before
             /\ (forall email other,
                   UpdateCustomerInput.email data = Some email ->
                   other ∈ customers db -> Customer.id other ≠ id ->
                   Customer.email other ≠ email)
             /\ Customer.id updated = id
             /\ Customer.firstName updated
                = default (Customer.firstName before)
                    (UpdateCustomerInput.firstName data)
             /\ Customer.lastName updated
                = default (Customer.lastName before)
                    (UpdateCustomerInput.lastName data)
             /\ Customer.email updated
                = default (Customer.email before)
                    (UpdateCustomerInput.email data)
             /\ Customer.phone updated
                = orKeep (UpdateCustomerInput.phone data)
                    (Customer.phone before)
             /\ Customer.address updated
                = orKeep (UpdateCustomerInput.address data)
                    (Customer.address before)
             /\ customer_findUnique id db' = Some updated
             /\ (forall other, other ≠ id ->
                   customer_findUnique other db'
                   = customer_findUnique other db)
             /\ orders db' = orders db
             /\ orderItems db' = orderItems db
             /\ users db' = users db
             /\ (forall o, Order.customerId o = id ->
                   OrderWithRelations.customer (include o db') = Some updated)
             /\ CustomerController.updateCustomer id data db
                = (db',
                   HttpResponse.mk 200
                     (ApiResponse.mk true "Customer updated successfully"
                        (Some updated) None None))
       | Throw message =>
           db' = db /\ message = "Customer not found"
           /\ (customer_findUnique id db = None
               \/ is_Some (customer_findUnique id db)
                  /\ exists email other,
                       UpdateCustomerInput.email data = Some email
                       /\ other ∈ customers db /\ Customer.id other ≠ id
                       /\ Customer.email other = email)
           /\ CustomerController.updateCustomer id data db
              = (db, refusal 404 "Customer not found")
       end.
Proof.
  destruct (CustomerService.updateCustomer id data db) as [db' res] eqn:Hcall.
  exists db', res. split; [done|]. destruct res as [updated|message].
  - destruct (updateCustomer_inv _ _ _ _ _ Hcall)
      as (before & Hb & Hfree & Hu & Hdb).
    destruct (customer_findUnique_Some _ _ _ Hb) as [_ Hbid].
    assert (Hid : Customer.id updated = id) by (by rewrite Hu).
    assert (Hfound : customer_findUnique id db' = Some updated).
    { rewrite Hdb. unfold customer_findUnique. simpl.
      by apply (find_replaceCustomer_same id _ (customers db) before). }
    assert (Hfields :
      Customer.firstName updated
      = default (Customer.firstName before)
          (UpdateCustomerInput.firstName data)
      /\ Customer.lastName updated
         = default (Customer.lastName before)
             (UpdateCustomerInput.lastName data)
      /\ Customer.email updated
         = default (Customer.email before) (UpdateCustomerInput.email data)
      /\ Customer.phone updated
         = orKeep (UpdateCustomerInput.phone data) (Customer.phone before)
      /\ Customer.address updated
         = orKeep (UpdateCustomerInput.address data)
             (Customer.address before)) by (by rewrite Hu).
    destruct Hfields as (? & ? & ? & ? & ?).
    exists before. split_and!; try done; try (by rewrite Hdb).
    + intros email other He.
      by apply (proj1 (emailOfAnother_false id email db) (Hfree email He)).
    + intros other Hne. rewrite Hdb. unfold customer_findUnique. simpl.
      by apply find_replaceCustomer_other.
    + intros o Ho. unfold include. simpl. by rewrite Ho.
    + unfold CustomerController.updateCustomer. by rewrite Hcall.
  - destruct (updateCustomer_fails _ _ _ _ _ Hcall) as (-> & -> & Hwhy).
    split; [done|]. split; [done|]. split.
    + destruct (customer_findUnique id db) as [c|] eqn:Hf; [|by left].
      right. split; [by eexists|].
      destruct Hwhy as [?|(email & He & Htaken)]; [done|].
      apply emailOfAnother_true in Htaken as (other & ? & ? & ?).
      by exists email, other.
    + unfold CustomerController.updateCustomer. by rewrite Hcall.
Qed.

Lemma updateCustomer_effect_witness :
  (exists db' updated,
     CustomerService.updateCustomer "c1" renameAlice oneOrder
     = (db', Ok updated)
     /\ Customer.firstName updated = "Alice"
     /\ Customer.lastName updated = "Wilson-Smith"
     /\ OrderWithRelations.customer <$> order_findUnique "c2" db'
        = Some (Some updated))
  /\ is_Some (customer_findUnique "c8" withBob)
  /\ CustomerController.updateCustomer "c8" takeAlicesEmail withBob
     = (withBob, refusal 404 "Customer not found").
Proof.
  split; [|split; [by eexists|]].
  - destruct (updateCustomer_effect "c1" renameAlice oneOrder)
      as (db' & res & Hcall & Hres).
    vm_compute in Hcall. injection Hcall as <- <-.
    destruct Hres as (before & _ & _ & _ & Hfirst & Hlast & _).
    eexists _, _. split; [reflexivity|].
    split; [reflexivity|]. split; reflexivity.
  - destruct (updateCustomer_effect "c8" takeAlicesEmail withBob)
      as (db' & res & Hcall & Hres).
    vm_compute in Hcall. injection Hcall as <- <-.
    by destruct Hres as (_ & _ & _ & Hctl).
Defined.

Lemma createCustomer_inv clientMessage data db db' created :
  CustomerService.createCustomer clientMessage data db = (db', Ok created) ->
  emailTaken (CreateCustomerInput.email data) db = false
  /\ created
     = Customer.mk (cuid (nextId db)) (CreateCustomerInput.firstName data)
         (CreateCustomerInput.lastName data) (CreateCustomerInput.email data)
         (CreateCustomerInput.phone data) (CreateCustomerInput.address data)
  /\ db' = mkStore (users db) (customers db ++ [created]) (orders db)
             (orderItems db) (N.succ (nextId db)).
Proof.
  unfold CustomerService.createCustomer, customer_create.
  destruct (emailTaken _ db); [discriminate|].
  by intros [= <- <-].
Qed.



(** ** The invariants across the customer calls *)

(** X19. The customer calls keep what the order calls rely on. After a
    successful createCustomer, updateCustomer or deleteCustomer, a
    well-formed store is still well formed (identifiers from the counter,
    none shared), and when every order's totalAmount was the sum of its
    items' totalPrice, each of them quantity times unitPrice, that is still
    so for every order left. *)
Theorem customer_calls_keep_the_invariants (db : Store) :
  wellFormed db -> consistentStore db ->
  (forall clientMessage data db' created,
     CustomerService.createCustomer clientMessage data db
     = (db', Ok created) ->
     wellFormed db' /\ consistentStore db')
  /\ (forall id data db' updated,
        CustomerService.updateCustomer id data db = (db', Ok updated) ->
        wellFormed db' /\ consistentStore db')
  /\ (forall id db' result,
        CustomerService.deleteCustomer id db = (db', Ok result) ->
        wellFormed db' /\ consistentStore db').
Proof.
  intros Hwf Hcons. pose proof Hwf as [Ho Hi Hno Hni].
  assert (Hsame : forall db',
            orders db' = orders db -> orderItems db' = orderItems db ->
            (nextId db <= nextId db')%N ->
            wellFormed db' /\ consistentStore db').
  { intros db' Eo Ei Hn.
    assert (Hmono : forall s, allocated db s -> allocated db' s)
      by (intros s; by apply allocated_mono).
    split.
    - constructor; rewrite ?Eo, ?Ei; try done.
      + eapply list.Forall_impl; [exact Ho|]. intros o. apply Hmono.
      + eapply list.Forall_impl; [exact Hi|].
        intros it [? ?]. split; by apply Hmono.
    - unfold consistentStore in *. rewrite Eo.
      eapply list.Forall_impl; [exact Hcons|]. intros o.
      apply orderConsistent_same_items. unfold itemsOf. by rewrite Ei. }
  split; [|split].
  - intros clientMessage data db' created Hcall.
    destruct (createCustomer_inv _ _ _ _ _ Hcall) as (_ & _ & ->).
    apply Hsame; simpl; [done..|lia].
  - intros id data db' updated Hcall.
    destruct (updateCustomer_inv _ _ _ _ _ Hcall) as (b & _ & _ & _ & ->).
    apply Hsame; simpl; [done..|lia].
  - intros id db' result Hcall.
    destruct (deleteCustomer_inv _ _ _ _ Hcall) as (_ & _ & Hdb).
    split.
    + rewrite Hdb. constructor; simpl.
      * apply list.Forall_forall. intros o [_ Hin]%list_elem_of_filter.
        rewrite list.Forall_forall in Ho. destruct (Ho o Hin) as (k & ? & ?).
        by exists k.
      * apply list.Forall_forall. intros it [_ Hin]%list_elem_of_filter.
        rewrite list.Forall_forall in Hi.
        destruct (Hi it Hin) as [(k & ? & ?) (k' & ? & ?)].
        split; [by exists k|by exists k'].
      * by apply NoDup_fmap_filter.
      * by apply NoDup_fmap_filter.
    + assert (Eo : orders db'
                   = filter (fun o => Order.customerId o ≠ id) (orders db))
        by (by rewrite Hdb).
      assert (Ei : orderItems db'
                   = filter
                       (fun it => ownedBy id db (OrderItem.orderId it) = false)
                       (orderItems db)) by (by rewrite Hdb).
      unfold consistentStore in *. rewrite Eo.
      rewrite list.Forall_forall in Hcons |- *.
      intros o [Hc Hin]%list_elem_of_filter.
      apply (orderConsistent_same_items db); [|by apply Hcons].
      unfold itemsOf at 1. rewrite Ei. by apply survivors_keep_items.
Qed.

Lemma customer_calls_keep_the_invariants_witness :
  consistentStore (fst (CustomerService.deleteCustomer "c1" twoOrders))
  /\ wellFormed withBob.
Proof.
  assert (Hwf : wellFormed twoOrders) by apply (seeded_runs _ twoOrders_run).
  assert (Hcons : consistentStore twoOrders).
  { apply (run_invariant seeded twoOrders twoOrders_run).
    split; [apply seeded_wellFormed|apply seeded_consistent]. }
  destruct (customer_calls_keep_the_invariants twoOrders Hwf Hcons)
    as (Hcreate & _ & Hdelete).
  split.
  - apply (Hdelete "c1" _ (CustomerService.DeleteResult.mk 2) eq_refl).
  - apply (Hcreate sampleMessage bob _ _ eq_refl).
Defined.

(** ** Edge of the item replacement *)

(** X20. An empty list of items is not the same as no list. An update whose
    items are the empty list takes the replacing branch: on an existing
    order it succeeds, removes every item of the order, creates none, and
    sets totalAmount to 0, leaving an order without items. *)
Theorem empty_item_list_empties_the_order
    (id : string) (data : UpdateOrderInput.t) (db : Store) :
  UpdateOrderInput.items data = Some [] ->
  is_Some (order_findRow id db) ->
  exists db' out,
    OrderService.updateOrder id data db = (db', Ok out)
    /\ OrderWithRelations.items out = []
    /\ itemsOf id db' = []
    /\ Forall (fun it => OrderItem.orderId it ≠ id) (orderItems db')
    /\ Order.totalAmount (OrderWithRelations.order out) = 0%float
    /\ order_findUnique id db' = Some out.
Proof.
  intros Hitems Hsome.
  destruct (updateOrder_succeeds id data db Hsome) as (db' & out & Hcall).
  exists db', out. split; [exact Hcall|].
  destruct (replaced_view _ _ _ _ _ _ Hitems Hcall)
    as (o & _ & Hrows & Hrow & _).
  pose proof (replaced_items _ _ _ _ _ _ Hitems Hcall) as Hit.
  destruct (updateOrder_items_inv _ _ _ _ _ _ Hitems Hcall)
    as (o' & _ & Hdb & _).
  split; [exact Hrows|]. split; [exact Hit|]. split.
  { rewrite Hdb. simpl. rewrite app_nil_r. apply list.Forall_forall.
    by intros it [? _]%list_elem_of_filter. }
  split; [by rewrite Hrow|]. apply (updated_lookup _ _ _ _ _ Hcall).
Qed.

Lemma empty_item_list_empties_the_order_witness :
  exists db' out,
    OrderService.updateOrder "c2" emptied oneOrder = (db', Ok out)
    /\ length (itemsOf "c2" oneOrder) = 2%nat
    /\ itemsOf "c2" db' = []
    /\ Order.totalAmount (OrderWithRelations.order out) = 0%float.
Proof.
  destruct (empty_item_list_empties_the_order "c2" emptied oneOrder eq_refl
              (ex_intro _ _ eq_refl))
    as (db' & out & Hcall & _ & Hitems & _ & Htotal & _).
  exists db', out. split; [exact Hcall|]. split; [reflexivity|].
  split; [exact Hitems|exact Htotal].
Defined.

(** X21. Replacing the items of an order replaces all of them and
    nothing else. On an existing order of a well-formed store an update
    that carries a list of items succeeds; none of the rows the order had
    is left in the item table; the rows of the order are then exactly the
    new items, in order; the rows of every other order are the ones from
    before, and every other order reads as before. *)
Theorem item_replacement_is_complete
    (id : string) (data : UpdateOrderInput.t)
    (items : list OrderItemInput.t) (db : Store) :
  wellFormed db ->
  UpdateOrderInput.items data = Some items ->
  is_Some (order_findRow id db) ->
  exists db' out,
    OrderService.updateOrder id data db = (db', Ok out)
    /\ (forall old, old ∈ itemsOf id db ->
                    OrderItem.id old ∉ (OrderItem.id <$> orderItems db'))
    /\ map inputOf (itemsOf id db') = items
    /\ OrderWithRelations.items out = itemsOf id db'
    /\ (forall other, other ≠ id -> itemsOf other db' = itemsOf other db)
    /\ (forall other, other ≠ id ->
          order_findUnique other db' = order_findUnique other db).
Proof.
  intros Hwf Hitems Hsome.
  destruct (updateOrder_succeeds id data db Hsome) as (db' & out & Hcall).
  exists db', out. split; [exact Hcall|].
  destruct (replaced_view id data items db db' out Hitems Hcall)
    as (o & _ & Hrows & _).
  pose proof (replaced_items id data items db db' out Hitems Hcall) as Hit.
  destruct (createItems_rows id (nextId db) items) as [Hin _].
  split.
  { intros old. by apply (replaced_old_gone id data items db db' out). }
  split; [by rewrite Hit|]. split; [by rewrite Hit, Hrows|]. split.
  - intros other Hne.
    by apply (replaced_other_items id data items db db' out).
  - intros other. by apply (replaced_other_rows id data items db db' out).
Qed.

Lemma item_replacement_is_complete_witness :
  exists db' out,
    OrderService.updateOrder "c5" oneCable twoOrders = (db', Ok out)
    /\ length (itemsOf "c5" twoOrders) = 2%nat
    /\ map inputOf (itemsOf "c5" db')
       = [OrderItemInput.mk "Cable" 3%float 0.1%float]
    /\ itemsOf "c2" db' = itemsOf "c2" twoOrders.
Proof.
  destruct (item_replacement_is_complete "c5" oneCable
              [OrderItemInput.mk "Cable" 3%float 0.1%float] twoOrders
              (seeded_runs twoOrders twoOrders_run) eq_refl
              (ex_intro _ _ eq_refl))
    as (db' & out & Hcall & _ & Hrows & _ & Hothers & _).
  exists db', out. split; [exact Hcall|]. split; [reflexivity|].
  split; [exact Hrows|]. by apply Hothers.
Defined.

(** ** A taken email *)

(** X22. Creating a customer fails exactly when a stored customer already
    holds the input's email. The service catches nothing, so the client's
    exception reaches the handler, which answers with the default 400,
    "Failed to create customer" and the exception's message as detail (no
    detail when that message is empty); the store is unchanged. *)
Theorem taken_email_is_refused
    (clientMessage : KnownRequestError -> string)
    (data : CreateCustomerInput.t) (db : Store) :
  let taken :=
    exists holder,
      holder ∈ customers db
      /\ Customer.email holder = CreateCustomerInput.email data in
  exists db' res,
    CustomerController.createCustomer clientMessage data db = (db', res)
    /\ (taken <-> ApiResponse.success (HttpResponse.body res) = false)
    /\ (taken ->
        db' = db
        /\ CustomerService.createCustomer clientMessage data db
           = (db, Throw (clientMessage P2002))
        /\ HttpResponse.statusCode res = 400%N
        /\ ApiResponse.message (HttpResponse.body res)
           = "Failed to create customer"
        /\ ApiResponse.data (HttpResponse.body res) = None
        /\ ApiResponse.error (HttpResponse.body res)
           = (if String.eqb (clientMessage P2002) "" then None
              else Some (clientMessage P2002))).
Proof.
  intros taken.
  assert (Htaken : taken
                   <-> emailTaken (CreateCustomerInput.email data) db = true).
  { unfold taken, emailTaken. rewrite existsb_exists. split.
    - intros (c & Hin & He). exists c.
      split; [by apply list_elem_of_In|by apply String.eqb_eq].
    - intros (c & Hin & He). exists c.
      split; [by apply list_elem_of_In|by apply String.eqb_eq]. }
  unfold CustomerController.createCustomer, CustomerService.createCustomer,
    customer_create.
  destruct (emailTaken (CreateCustomerInput.email data) db) eqn:E.
  - eexists _, _. split; [reflexivity|]. simpl. split; [by rewrite Htaken|].
    intros _. repeat (split; [done|]). done.
  - eexists _, _. split; [reflexivity|]. simpl. split.
    + rewrite Htaken. by split.
    + intros Hyes. apply Htaken in Hyes. discriminate Hyes.
Qed.

Lemma taken_email_is_refused_witness :
  exists res,
    CustomerController.createCustomer sampleMessage impostor oneOrder
    = (oneOrder, res)
    /\ HttpResponse.statusCode res = 400%N
    /\ ApiResponse.error (HttpResponse.body res)
       = Some "Unique constraint failed".
Proof.
  destruct (taken_email_is_refused sampleMessage impostor oneOrder)
    as (db' & res & Hcall & _ & Hrefused).
  assert (Hheld : exists holder,
            holder ∈ customers oneOrder
            /\ Customer.email holder = CreateCustomerInput.email impostor)
    by (exists wilson; split; [apply list_elem_of_here|reflexivity]).
  destruct (Hrefused Hheld) as (Hdb & _ & Hcode & _ & _ & Herror).
  exists res. rewrite Hdb in Hcall. split; [exact Hcall|].
  split; [exact Hcode|exact Herror].
Defined.

Lemma deleteOrder_effect_witness :
  exists db',
    OrderService.deleteOrder "c2" twoOrders = (db', Ok tt)
    /\ (order_count db' + 1 = order_count twoOrders)%N
    /\ OrderService.deleteOrder "c2" db' = (db', Throw "Order not found").
Proof.
  destruct (deleteOrder_effect "c2" twoOrders) as (db' & res & Hcall & Hres).
  vm_compute in Hcall. injection Hcall as <- <-.
  destruct Hres as (_ & _ & _ & _ & _ & _ & Hagain & Hcount).
  eexists. split; [reflexivity|].
  split; [exact (Hcount (seeded_runs _ twoOrders_run))|exact Hagain].
Defined.
